(** * Daily-log visualizer: parser, categorizer and analyzer

    A shallow embedding of [js/parser.js], [js/api.js], [js/analyzer.js]
    and the constants they use, followed by the properties of these
    modules.

    Conventions of the embedding.
    - A JavaScript string is the list of its UTF-16 code units ([str]);
      literals are written in UTF-8 and decoded by [js].
    - The integers held by an entry ([id], [immersion], [duration]) are
      in [Z]; the two places where the source divides are carried out
      on IEEE binary64 numbers ([float]), as JavaScript does.
    - An array passed to a function that mutates it is threaded through
      as the list of its elements: the function returns the contents the
      array has afterwards. *)

From Stdlib Require Import ZArith NArith List Lia Bool Floats Permutation Sorted.
From stdpp Require Import gmap list strings.

Open Scope Z_scope.

(** ** JavaScript strings *)

Abbreviation char := N (only parsing).
Abbreviation str := (list N) (only parsing).

(** UTF-8 bytes to code points. *)
Fixpoint utf8_decode (bs : list N) : list N :=
  match bs with
  | [] => []
  | b :: r =>
      if (b <? 128)%N then b :: utf8_decode r
      else if (b <? 224)%N then
        match r with
        | c1 :: r1 =>
            N.lor (N.shiftl (N.land b 31) 6) (N.land c1 63) :: utf8_decode r1
        | _ => []
        end
      else if (b <? 240)%N then
        match r with
        | c1 :: c2 :: r2 =>
            N.lor (N.shiftl (N.land b 15) 12)
              (N.lor (N.shiftl (N.land c1 63) 6) (N.land c2 63))
            :: utf8_decode r2
        | _ => []
        end
      else
        match r with
        | c1 :: c2 :: c3 :: r3 =>
            N.lor (N.shiftl (N.land b 7) 18)
              (N.lor (N.shiftl (N.land c1 63) 12)
                 (N.lor (N.shiftl (N.land c2 63) 6) (N.land c3 63)))
            :: utf8_decode r3
        | _ => []
        end
  end.

(** A code point as one or two UTF-16 code units. *)
Definition utf16_units (cp : N) : list N :=
  if (cp <? 65536)%N then [cp]
  else
    let v := (cp - 65536)%N in
    [(55296 + N.shiftr v 10)%N; (56320 + N.land v 1023)%N].

Definition js (s : string) : str :=
  flat_map utf16_units
    (utf8_decode (map Ascii.N_of_ascii (String.list_ascii_of_string s))).

(** [WhiteSpace] and [LineTerminator] code points: what [trim] strips and
    what [\s] matches. *)
Definition isWhiteSpace (c : char) : bool :=
  bool_decide (c ∈ [9; 10; 11; 12; 13; 32; 160; 5760; 8232; 8233; 8239;
                    8287; 12288; 65279]%N)
  || ((8192 <=? c)%N && (c <=? 8202)%N).

(** What [.] does not match. *)
Definition isLineTerminator (c : char) : bool :=
  bool_decide (c ∈ [10; 13; 8232; 8233]%N).

(** [\d]. *)
Definition isDigit (c : char) : bool := (48 <=? c)%N && (c <=? 57)%N.

Fixpoint dropWhile {A} (f : A -> bool) (l : list A) : list A :=
  match l with
  | [] => []
  | x :: r => if f x then dropWhile f r else l
  end.

Fixpoint takeWhile {A} (f : A -> bool) (l : list A) : list A :=
  match l with
  | [] => []
  | x :: r => if f x then x :: takeWhile f r else []
  end.

Definition trimStart (s : str) : str := dropWhile isWhiteSpace s.
Definition trimEnd (s : str) : str := rev (dropWhile isWhiteSpace (rev s)).
Definition trim (s : str) : str := trimEnd (trimStart s).

(** [s.split(c)] for a one-character separator: never the empty array. *)
Fixpoint split (c : char) (s : str) : list str :=
  match s with
  | [] => [[]]
  | x :: r =>
      if bool_decide (x = c) then [] :: split c r
      else match split c r with
           | h :: t => (x :: h) :: t
           | [] => [[x]]
           end
  end.

Fixpoint startsWith (p s : str) : bool :=
  match p, s with
  | [], _ => true
  | a :: p', b :: s' => bool_decide (a = b) && startsWith p' s'
  | _ :: _, [] => false
  end.

(** [s.indexOf(p)], with [None] for [-1]. *)
Fixpoint indexOf (p s : str) : option nat :=
  if startsWith p s then Some 0%nat
  else match s with
       | [] => None
       | _ :: r => S <$> indexOf p r
       end.

(** [s.substring(n)]. *)
Definition substring (n : nat) (s : str) : str := drop n s.

(** [s.replace(p, '')] for a string pattern [p]: the first occurrence only. *)
Definition replaceFirst (p s : str) : str :=
  match indexOf p s with
  | Some i => take i s ++ drop (i + length p) s
  | None => s
  end.

(** [s.includes]-style search, which is what matching an alternation of
    literals against [s] amounts to. *)
Definition contains (p s : str) : bool :=
  match indexOf p s with Some _ => true | None => false end.

Definition digitValue (c : char) : Z := Z.of_N c - 48.

Definition decimalValue (s : str) : Z :=
  fold_left (fun acc c => 10 * acc + digitValue c) s 0.

(** [Number(s)] on the strings the parser hands to it.  The empty (or
    blank) string is [0] and a plain run of decimal digits is its value;
    [None] stands for every other case: [NaN], and the numeric literal
    forms (signs, fractions, exponents, radix prefixes) that no [dd:dd]
    time holds. *)
Definition Number_ (s : str) : option Z :=
  let t := trim s in
  if forallb isDigit t then Some (decimalValue t) else None.

Definition hexValue (c : char) : option Z :=
  if isDigit c then Some (digitValue c)
  else if (97 <=? c)%N && (c <=? 102)%N then Some (Z.of_N c - 87)
  else if (65 <=? c)%N && (c <=? 70)%N then Some (Z.of_N c - 55)
  else None.

Definition isHexDigit (c : char) : bool :=
  match hexValue c with Some _ => true | None => false end.

Definition hexadecimalValue (s : str) : Z :=
  fold_left (fun acc c => 16 * acc + default 0 (hexValue c)) s 0.

(** [parseInt(s)] without a radix: leading white space, an optional sign,
    an optional [0x] prefix, then the longest run of digits; [None] is
    [NaN]. *)
Definition parseInt (s : str) : option Z :=
  let t := trimStart s in
  let '(neg, t) :=
    match t with
    | 45%N :: r => (true, r)
    | 43%N :: r => (false, r)
    | _ => (false, t)
    end in
  let sign (v : Z) := if neg : bool then - v else v in
  match t with
  | 48%N :: x :: r =>
      if bool_decide (x = 120%N) || bool_decide (x = 88%N) then
        match takeWhile isHexDigit r with
        | [] => None
        | ds => Some (sign (hexadecimalValue ds))
        end
      else Some (sign (decimalValue (takeWhile isDigit t)))
  | _ =>
      match takeWhile isDigit t with
      | [] => None
      | ds => Some (sign (decimalValue ds))
      end
  end.

(** [a.localeCompare(b)] as a sign.  The locale's collation is modelled
    by code-unit order, which is what it is on the strings the sort of
    this program compares: five characters, digits around a colon. *)
Fixpoint localeCompare (a b : str) : Z :=
  match a, b with
  | [], [] => 0
  | [], _ :: _ => -1
  | _ :: _, [] => 1
  | x :: a', y :: b' =>
      if (x <? y)%N then -1
      else if (y <? x)%N then 1
      else localeCompare a' b'
  end.

(** [Array.prototype.sort] with a comparator: a stable sort, written as
    insertion from the right.  A comparator result that is not positive
    keeps the earlier element first. *)
Fixpoint sortInsert {A} (cmp : A -> A -> Z) (x : A) (l : list A) : list A :=
  match l with
  | [] => [x]
  | y :: r => if cmp x y <=? 0 then x :: l else y :: sortInsert cmp x r
  end.

Fixpoint sort {A} (cmp : A -> A -> Z) (l : list A) : list A :=
  match l with
  | [] => []
  | x :: r => sortInsert cmp x (sort cmp r)
  end.

(** ** Constants ([js/constants.js]) *)

Module CATEGORIES.
Definition WORK : str := Eval vm_compute in js "工作".
Definition ROUTINE : str := Eval vm_compute in js "日常".
Definition DEVELOPMENT : str := Eval vm_compute in js "學習".
Definition FAMILY : str := Eval vm_compute in js "家庭".
Definition SOCIAL : str := Eval vm_compute in js "社交".
Definition RELAX_BED : str := Eval vm_compute in js "休息".
End CATEGORIES.

(** The fixed category set. *)
Definition CATEGORY_ORDER : list str :=
  [CATEGORIES.WORK; CATEGORIES.DEVELOPMENT; CATEGORIES.ROUTINE;
   CATEGORIES.FAMILY; CATEGORIES.SOCIAL; CATEGORIES.RELAX_BED].

Module THRESHOLDS.
Definition ENERGY_CHANGE : Z := 2.
End THRESHOLDS.

Module TIME.
Definition MINUTES_PER_HOUR : Z := 60.
Definition MINUTES_PER_DAY : Z := 1440.
End TIME.

(** ** Entries *)

Record Entry := mkEntry {
  id : Z;
  start : str;
  end_ : str;
  content : str;
  immersion : Z;
  duration : Z;
  category : str
}.

Definition setCategory (c : str) (e : Entry) : Entry :=
  mkEntry (id e) (start e) (end_ e) (content e) (immersion e) (duration e) c.

(** ** Parser ([js/parser.js]) *)

(** [calculateDuration]: [None] when a component is not a number the
    model of [Number] covers (the source then computes with [NaN]). *)
Definition calculateDuration (start end_ : str) : option Z :=
  match map Number_ (split 58%N start), map Number_ (split 58%N end_) with
  | Some startHour :: Some startMin :: _, Some endHour :: Some endMin :: _ =>
      let minutes :=
        (endHour * TIME.MINUTES_PER_HOUR + endMin)
        - (startHour * TIME.MINUTES_PER_HOUR + startMin) in
      Some (if minutes <? 0 then minutes + TIME.MINUTES_PER_DAY else minutes)
  | _, _ => None
  end.

(** Spec side: the time [h:m] written as [HH:MM]. *)
Definition twoDigits (n : Z) : str :=
  [Z.to_N (48 + n / 10); Z.to_N (48 + n mod 10)].

Definition hhmm (h m : Z) : str := twoDigits h ++ [58%N] ++ twoDigits m.

Definition minutesOf (h m : Z) : Z := h * 60 + m.


(** [PATTERNS.TIME_HEADER], [/(\d{2}:\d{2})\s*~\s*(\d{2}:\d{2})/]: the
    whole match and its two groups. *)
Record TimeMatch := mkTimeMatch {
  tm_all : str;
  tm_start : str;
  tm_end : str
}.

(** [\d{2}:\d{2}] at the head of [s], with what follows it. *)
Definition takeTime (s : str) : option (str * str) :=
  match s with
  | a :: b :: c :: d :: e :: r =>
      if isDigit a && isDigit b && bool_decide (c = 58%N)
         && isDigit d && isDigit e
      then Some ([a; b; c; d; e], r)
      else None
  | _ => None
  end.

(** The pattern tried at the head of [s].  White space is neither [~]
    nor a digit, so the greedy [\s*] never has to give characters back. *)
Definition matchTimeHeaderAt (s : str) : option TimeMatch :=
  match takeTime s with
  | Some (t1, r1) =>
      match dropWhile isWhiteSpace r1 with
      | 126%N :: r2 =>
          match takeTime (dropWhile isWhiteSpace r2) with
          | Some (t2, _) =>
              Some (mkTimeMatch
                      (t1 ++ takeWhile isWhiteSpace r1 ++ [126%N]
                          ++ takeWhile isWhiteSpace r2 ++ t2)
                      t1 t2)
          | None => None
          end
      | _ => None
      end
  | None => None
  end.

(** [line.match(PATTERNS.TIME_HEADER)]: the leftmost match. *)
Fixpoint matchTimeHeader (s : str) : option TimeMatch :=
  match matchTimeHeaderAt s with
  | Some m => Some m
  | None =>
      match s with
      | [] => None
      | _ :: r => matchTimeHeader r
      end
  end.

(** [PATTERNS.BARS], [/([❚|]+)/]: the leftmost, longest run of bars. *)
Definition isBar (c : char) : bool :=
  bool_decide (c = 10074%N) || bool_decide (c = 124%N).

Definition matchBars (s : str) : option str :=
  match takeWhile isBar (dropWhile (fun c => negb (isBar c)) s) with
  | [] => None
  | run => Some run
  end.

(** [PATTERNS.THOUGHT] and [PATTERNS.ACTION]: from the start of the line,
    white space, an optional dash, white space, the marker ([>] or [v]),
    white space, and then the captured group, which runs to the next line
    terminator. *)
Definition matchMarker (marker : char) (s : str) : option str :=
  let s1 := dropWhile isWhiteSpace s in
  let s2 := match s1 with 45%N :: r => r | _ => s1 end in
  match dropWhile isWhiteSpace s2 with
  | c :: r =>
      if bool_decide (c = marker) then
        Some (takeWhile (fun c => negb (isLineTerminator c))
                (dropWhile isWhiteSpace r))
      else None
  | [] => None
  end.

Definition matchThought : str -> option str := matchMarker 62%N.
Definition matchAction : str -> option str := matchMarker 118%N.

Definition calculateImmersionLevel (bars : str) : Z := Z.of_nat (length bars).

(** [parseTimeEntry]; [None] only if the duration were not a number,
    which the match excludes (see [parseTimeEntry_returns]). *)
Definition parseTimeEntry (line : str) (timeMatch : TimeMatch) (index : Z)
  : option Entry :=
  let start := tm_start timeMatch in
  let end_ := tm_end timeMatch in
  let timePart := tm_all timeMatch in
  let at_ := match indexOf timePart line with
             | Some i => Z.of_nat i
             | None => -1
             end in
  let rest := substring (Z.to_nat (at_ + Z.of_nat (length timePart))) line in
  let '(immersion, rest) :=
    match matchBars rest with
    | Some bars => (calculateImmersionLevel bars, replaceFirst bars rest)
    | None => (0, rest)
    end in
  match calculateDuration start end_ with
  | Some duration =>
      Some (mkEntry (index + 1) start end_ (trim rest) immersion duration
              CATEGORIES.ROUTINE)
  | None => None
  end.

Record ParsedLog := mkParsedLog {
  entries : list Entry;
  thoughts : list str;
  actions : list str
}.

(** The body of the [forEach] callback of [parseLogText]. *)
Definition parseLine (line : str) (index : Z) (acc : ParsedLog) : ParsedLog :=
  let cleanLine := trim line in
  if bool_decide (cleanLine = []) then acc
  else
    match matchThought cleanLine with
    | Some t => mkParsedLog (entries acc) (thoughts acc ++ [trim t]) (actions acc)
    | None =>
        match matchAction cleanLine with
        | Some a =>
            mkParsedLog (entries acc) (thoughts acc) (actions acc ++ [trim a])
        | None =>
            match matchTimeHeader cleanLine with
            | Some timeMatch =>
                match parseTimeEntry cleanLine timeMatch index with
                | Some entry =>
                    mkParsedLog (entries acc ++ [entry]) (thoughts acc)
                      (actions acc)
                | None => acc
                end
            | None => acc
            end
        end
    end.

(** [lines.forEach((line, index) => ...)] from position [index] on. *)
Fixpoint parseLines (lines : list str) (index : Z) (acc : ParsedLog)
  : ParsedLog :=
  match lines with
  | [] => acc
  | line :: rest => parseLines rest (index + 1) (parseLine line index acc)
  end.

Definition parseLogText (rawText : str) : ParsedLog :=
  parseLines (split 10%N rawText) 0 (mkParsedLog [] [] []).

Definition MIDNIGHT : str := Eval vm_compute in js "00:00".
Definition SLEEP_CONTENT : str := Eval vm_compute in js "（自動補齊睡眠時段）".

Definition sleepEntry (until : str) (duration : Z) : Entry :=
  mkEntry 0 MIDNIGHT until SLEEP_CONTENT 0 duration CATEGORIES.RELAX_BED.

Definition byStart (a b : Entry) : Z := localeCompare (start a) (start b).

(** [addSleepPeriodIfMissing]: the contents of the array afterwards (the
    source sorts and unshifts in place and returns the same array);
    [None] when the duration of the sleep entry is not a number. *)
Definition addSleepPeriodIfMissing (entries : list Entry)
  : option (list Entry) :=
  match entries with
  | [] => Some entries
  | _ :: _ =>
      let sorted := sort byStart entries in
      match sorted with
      | first :: _ =>
          if bool_decide (start first <> MIDNIGHT) then
            match calculateDuration MIDNIGHT (start first) with
            | Some d => Some (sleepEntry (start first) d :: sorted)
            | None => None
            end
          else Some sorted
      | [] => Some sorted
      end
  end.

(** [validateEntries]: [false] when it throws. *)
Definition validateEntries (entries : list Entry) : bool :=
  negb (bool_decide (entries = [])).

Definition getUserEntries (entries : list Entry) : list Entry :=
  filter (fun entry => id entry <> 0) entries.

(** ** Categorizer ([js/api.js]) *)

(** What a JavaScript computation ends in. *)
Inductive error :=
| ConnectionError        (* thrown by [callGeminiApi] *)
| JsonSyntaxError        (* thrown by [JSON.parse] *)
| InvalidCategorization. (* thrown by the validation of the response *)

Inductive outcome (A : Type) :=
| Returned (a : A)
| Thrown (e : error).
Arguments Returned {A} a.
Arguments Thrown {A} e.

(** A computation over the entries array: the outcome, and the array as
    the computation leaves it, also when it throws. *)
Definition Action (A : Type) : Type := list Entry -> outcome A * list Entry.

Definition ret {A} (a : A) : Action A := fun es => (Returned a, es).
Definition throw {A} (e : error) : Action A := fun es => (Thrown e, es).
Definition bind {A B} (m : Action A) (k : A -> Action B) : Action B :=
  fun es =>
    match m es with
    | (Returned a, es') => k a es'
    | (Thrown e, es') => (Thrown e, es')
    end.
Definition lift {A} (o : outcome A) : Action A := fun es => (o, es).
Definition getLength : Action nat := fun es => (Returned (length es), es).
Definition modify (f : list Entry -> list Entry) : Action unit :=
  fun es => (Returned tt, f es).

Notation "'do' x <~ m 'then' k" := (bind m (fun x => k))
  (at level 10, x name, m at level 100, k at level 200).

(** What [JSON.parse] returns on a response.  The elements of an array
    are taken to be strings, which is what the prompt asks for and what
    an entry's [category] holds. *)
Inductive parsed :=
| NotArray
| Labels (categories : list str).

Definition FENCE : str := Eval vm_compute in js "```".
Definition FENCE_JSON : str := Eval vm_compute in js "```json".

(** [s.replace(/```json|```/g, '')]; [skip] counts the characters of a
    fence still to be dropped. *)
Fixpoint stripFences (skip : nat) (s : str) : str :=
  match s with
  | [] => []
  | x :: r =>
      match skip with
      | S k => stripFences k r
      | O =>
          if startsWith FENCE_JSON s then stripFences 6 r
          else if startsWith FENCE s then stripFences 2 r
          else x :: stripFences 0 r
      end
  end.

(** [entries.forEach((entry, index) => entry.category = categories[index])];
    the validation before it makes every index one of [categories]. *)
Definition applyCategories (categories : list str) (entries : list Entry)
  : list Entry :=
  imap (fun index entry =>
          match categories !! index with
          | Some c => setCategory c entry
          | None => entry
          end) entries.

(** The rule table of the fallback, from the patterns of
    [getCategoryByKeyword], in the order they are tried. *)
Definition RELAX_KEYWORDS : list str :=
  Eval vm_compute in map js ["睡"; "sleep"; "nap"; "休息"; "放鬆"]%string.
Definition WORK_KEYWORDS : list str :=
  Eval vm_compute in map js ["slide"; "工作"; "開會"; "meeting"; "會議"]%string.
Definition DEVELOPMENT_KEYWORDS : list str :=
  Eval vm_compute in
    map js ["讀書"; "學習"; "study"; "learning"; "閱讀"; "開發"]%string.
Definition FAMILY_KEYWORDS : list str :=
  Eval vm_compute in map js ["家人"; "父母"; "爸"; "媽"; "family"]%string.

(** [s.match(/k1|k2|.../)] as a truth value. *)
Definition matchAny (keywords : list str) (s : str) : bool :=
  existsb (fun k => contains k s) keywords.

Section Categorizer.
(** The two library functions of the categorizer that the development
    does not define: [JSON.parse] ([None] when it throws) and
    [String.prototype.toLowerCase]. *)
Variable JSON_parse : str -> option parsed.
Variable toLowerCase : str -> str.

(** [categorizeWithAI], given what [callGeminiApi] ends in.  The
    [catch] of the source logs and throws the error again. *)
Definition categorizeWithAI (api : outcome str) : Action unit :=
  do responseText <~ lift api then
  let cleanedResponse := trim (stripFences 0 responseText) in
  do categories <~ match JSON_parse cleanedResponse with
                   | Some v => ret v
                   | None => throw JsonSyntaxError
                   end then
  do n <~ getLength then
  match categories with
  | Labels cs =>
      if bool_decide (length cs <> n) then throw InvalidCategorization
      else modify (applyCategories cs)
  | NotArray => throw InvalidCategorization
  end.

Definition getCategoryByKeyword (content startTime : str) : str :=
  let lowerContent := toLowerCase content in
  let hour := parseInt (default [] (head (split 58%N startTime))) in
  if matchAny RELAX_KEYWORDS lowerContent then CATEGORIES.RELAX_BED
  else if matchAny WORK_KEYWORDS lowerContent then CATEGORIES.WORK
  else if matchAny DEVELOPMENT_KEYWORDS lowerContent
  then CATEGORIES.DEVELOPMENT
  else if matchAny FAMILY_KEYWORDS lowerContent then CATEGORIES.FAMILY
  else if match hour with
          | Some h => (0 <=? h) && (h <? 7)
          | None => false
          end
  then CATEGORIES.RELAX_BED
  else CATEGORIES.ROUTINE.

Definition categorizeWithKeywords (entries : list Entry) : list Entry :=
  map (fun entry =>
         setCategory (getCategoryByKeyword (content entry) (start entry))
           entry) entries.
End Categorizer.

(** [toLowerCase] on the letters A to Z; the source's function agrees
    with it on text that has no other cased letter. *)
Definition asciiLowerCase (s : str) : str :=
  map (fun c => if (65 <=? c)%N && (c <=? 90)%N then (c + 32)%N else c) s.

(** The entries array once the objects of [getUserEntries entries] are as
    in [updated]: the filtered array holds the very objects of [entries],
    so writing the category of one of its elements is seen in [entries]. *)
Fixpoint writeBack (entries updated : list Entry) : list Entry :=
  match entries with
  | [] => []
  | entry :: rest =>
      if bool_decide (id entry <> 0) then
        match updated with
        | u :: us => u :: writeBack rest us
        | [] => entry :: writeBack rest []
        end
      else entry :: writeBack rest updated
  end.

(** The categorization step of [handleAnalyzeLog] in [js/main.js]; [api] is
    [None] when there is no API key, and otherwise what [callGeminiApi]
    ends in. *)
Definition categorizeEntries (JSON_parse : str -> option parsed)
  (toLowerCase : str -> str) (api : option (outcome str))
  (entries : list Entry) : list Entry :=
  let userEntries := getUserEntries entries in
  match api, userEntries with
  | Some response, _ :: _ =>
      match categorizeWithAI JSON_parse response userEntries with
      | (Returned _, userEntries) => writeBack entries userEntries
      | (Thrown _, userEntries) =>
          writeBack entries (categorizeWithKeywords toLowerCase userEntries)
      end
  | _, _ => writeBack entries (categorizeWithKeywords toLowerCase userEntries)
  end.

(** Spec side: the decision order of the fallback as a rule table in
    which the first matching row wins, then the hour rule, then the
    default. *)
Definition KEYWORD_RULES : list (list str * str) :=
  [(RELAX_KEYWORDS, CATEGORIES.RELAX_BED);
   (WORK_KEYWORDS, CATEGORIES.WORK);
   (DEVELOPMENT_KEYWORDS, CATEGORIES.DEVELOPMENT);
   (FAMILY_KEYWORDS, CATEGORIES.FAMILY)].

Definition firstMatch (rules : list (list str * str)) (s : str) : option str :=
  snd <$> find (fun rule => matchAny (fst rule) s) rules.

Definition categoryByRules (lowerContent : str) (hour : option Z) : str :=
  match firstMatch KEYWORD_RULES lowerContent with
  | Some c => c
  | None =>
      match hour with
      | Some h =>
          if (0 <=? h) && (h <? 7) then CATEGORIES.RELAX_BED
          else CATEGORIES.ROUTINE
      | None => CATEGORIES.ROUTINE
      end
  end.

(** ** Numbers *)

(** An integer as a JavaScript number: the nearest binary64 value, which
    is the integer itself up to [2^53]. *)
Definition Z2F (z : Z) : float := SF2Prim (binary_normalize prec emax z 0 false).

(** The integer nearest to [m * 2^e], ties going up. *)
Definition roundHalfUpScaled (m e : Z) : Z :=
  match e with
  | Zneg k => (2 * m + 2 ^ Zpos k) / 2 ^ (Zpos k + 1)
  | _ => m * 2 ^ e
  end.

Definition signed (neg : bool) (m : Z) : Z := if neg then - m else m.

(** [Math.round(x)]; [None] when the result is not an integer ([NaN] and
    the infinities). *)
Definition Math_round (x : float) : option Z :=
  match Prim2SF x with
  | S754_zero _ => Some 0
  | S754_finite s m e => Some (roundHalfUpScaled (signed s (Zpos m)) e)
  | S754_infinity _ | S754_nan => None
  end.

(** What [x.toFixed(1)] returns: [NaN], an infinity, or a decimal with one
    digit after the point, held as its sign and its number of tenths (the
    source prints magnitudes from [10^21] on with an exponent instead). *)
Inductive fixed1 :=
| FixedNaN
| FixedInfinity (neg : bool)
| Fixed (neg : bool) (tenths : Z).

Definition toFixed1 (x : float) : fixed1 :=
  match Prim2SF x with
  | S754_nan => FixedNaN
  | S754_infinity s => FixedInfinity s
  | S754_zero _ => Fixed false 0
  | S754_finite s m e => Fixed s (roundHalfUpScaled (10 * Zpos m) e)
  end.

(** The sign of [b - a] for two such strings read back as numbers; [0]
    when the difference is [NaN], as the sort takes it. *)
Definition compareFixed1 (a b : fixed1) : Z :=
  match a, b with
  | FixedNaN, _ | _, FixedNaN => 0
  | FixedInfinity sa, FixedInfinity sb =>
      if eqb sa sb then 0 else if sb then -1 else 1
  | FixedInfinity sa, Fixed _ _ => if sa then 1 else -1
  | Fixed _ _, FixedInfinity sb => if sb then -1 else 1
  | Fixed sa na, Fixed sb nb => Z.sgn (signed sb nb - signed sa na)
  end.

(** Spec side: [round(100 * p / t)] in exact arithmetic, for [t > 0]. *)
Definition roundPercent (p t : Z) : Z := (200 * p + t) / (2 * t).

(** ** Analyzer ([js/analyzer.js]) *)

Definition isResting (entry : Entry) : bool :=
  bool_decide (category entry = CATEGORIES.RELAX_BED).

(** [calculateCategoryStats]: a missing total and a total of [0] are both
    falsy, and both restart from [0].  The object is a finite map on the
    categories that are no name inherited from [Object.prototype]; at such
    a name the source reads the inherited member and stores no number,
    which the statements on this object leave aside or exclude (see
    [plainCategory]). *)
Definition addToCategory (stats : gmap (list N) Z) (entry : Entry)
  : gmap (list N) Z :=
  let current := default 0 (stats !! category entry) in
  <[category entry := current + duration entry]> stats.

Definition calculateCategoryStats (entries : list Entry) : gmap (list N) Z :=
  fold_left addToCategory entries ∅.

(** [calculateImmersionDistribution]; the guard makes the key one of the
    five the object starts with. *)
Definition addToLevel (distribution : gmap Z Z) (entry : Entry) : gmap Z Z :=
  if (1 <=? immersion entry) && (immersion entry <=? 5) then
    alter (fun minutes => minutes + duration entry) (immersion entry)
      distribution
  else distribution.

Definition calculateImmersionDistribution (entries : list Entry) : gmap Z Z :=
  fold_left addToLevel entries
    (<[5 := 0]> (<[4 := 0]> (<[3 := 0]> (<[2 := 0]> (<[1 := 0]> ∅))))).

Definition calculateTotalTime (entries : list Entry) : Z :=
  fold_left (fun total entry => total + duration entry) entries 0.

Module CategoryStat.
Record t := mk { totalImmersion : Z; totalTime : Z }.
End CategoryStat.

Module ImmersionAnalysis.
Record t := mk {
  category : list N;
  averageImmersion : fixed1;
  totalTime : Z
}.
End ImmersionAnalysis.

(** The [categoryStats] object of [analyzeImmersionByCategory]: its keys in
    the order they were created, which is the order [Object.entries]
    lists them in when no key reads as an array index.  As above, the
    model is of the categories that are no name inherited from
    [Object.prototype]. *)
Fixpoint lookupStat (k : list N) (stats : list (list N * CategoryStat.t))
  : option CategoryStat.t :=
  match stats with
  | [] => None
  | (k', v) :: r => if bool_decide (k' = k) then Some v else lookupStat k r
  end.

Fixpoint updateStat (k : list N) (f : CategoryStat.t -> CategoryStat.t)
  (stats : list (list N * CategoryStat.t)) : list (list N * CategoryStat.t) :=
  match stats with
  | [] => []
  | (k', v) :: r =>
      if bool_decide (k' = k) then (k', f v) :: r
      else (k', v) :: updateStat k f r
  end.

(** The body of the first [forEach] of [analyzeImmersionByCategory]. *)
Definition accumulateStat (stats : list (list N * CategoryStat.t))
  (entry : Entry) : list (list N * CategoryStat.t) :=
  if isResting entry || bool_decide (immersion entry = 0) then stats
  else
    let stats :=
      match lookupStat (category entry) stats with
      | Some _ => stats
      | None => stats ++ [(category entry, CategoryStat.mk 0 0)]
      end in
    updateStat (category entry)
      (fun s =>
         CategoryStat.mk
           (CategoryStat.totalImmersion s + immersion entry * duration entry)
           (CategoryStat.totalTime s + duration entry))
      stats.

Definition analysisOf (kv : list N * CategoryStat.t) : ImmersionAnalysis.t :=
  let '(category, stats) := kv in
  ImmersionAnalysis.mk category
    (toFixed1 (Z2F (CategoryStat.totalImmersion stats)
               / Z2F (CategoryStat.totalTime stats))%float)
    (CategoryStat.totalTime stats).

Definition analyzeImmersionByCategory (entries : list Entry)
  : list ImmersionAnalysis.t :=
  let categoryStats := fold_left accumulateStat entries [] in
  let analysis := map analysisOf categoryStats in
  sort (fun a b =>
          compareFixed1 (ImmersionAnalysis.averageImmersion a)
            (ImmersionAnalysis.averageImmersion b))
    analysis.

Module Transition.
Inductive kind := increase | decrease.
Record activity := mkActivity { content : list N; immersion : Z }.
Record t := mk {
  time : list N;
  type : kind;
  difference : Z;
  from : activity;
  to : activity
}.
End Transition.

(** The record pushed for a pair whose difference reaches the
    threshold. *)
Definition transitionRecord (previous current : Entry) : Transition.t :=
  let difference := immersion current - immersion previous in
  Transition.mk (start current)
    (if 0 <? difference then Transition.increase else Transition.decrease)
    difference
    (Transition.mkActivity (content previous) (immersion previous))
    (Transition.mkActivity (content current) (immersion current)).

(** The body of the [for] loop of [identifyEnergyTransitions] at index
    [i]; the loop bounds make both indices ones of [activeEntries]. *)
Definition transitionStep (activeEntries : list Entry)
  (transitions : list Transition.t) (i : nat) : list Transition.t :=
  match activeEntries !! (i - 1)%nat, activeEntries !! i with
  | Some previous, Some current =>
      let difference := immersion current - immersion previous in
      if THRESHOLDS.ENERGY_CHANGE <=? Z.abs difference then
        transitions ++ [transitionRecord previous current]
      else transitions
  | _, _ => transitions
  end.

Definition activeEntries (entries : list Entry) : list Entry :=
  filter (fun entry => negb (isResting entry)) entries.

(** [identifyEnergyTransitions]: the loop runs [i] from [1] to the length
    of the filtered array minus one. *)
Definition identifyEnergyTransitions (entries : list Entry)
  : list Transition.t :=
  let activeEntries := activeEntries entries in
  fold_left (transitionStep activeEntries)
    (seq 1 (length activeEntries - 1)) [].

Definition isProductive (entry : Entry) : bool :=
  bool_decide (category entry ∈ [CATEGORIES.WORK; CATEGORIES.DEVELOPMENT])
  && (4 <=? immersion entry).

(** The two counters of [calculateProductivityScore] after the [forEach]:
    [(productiveHighImmersionTime, totalActiveTime)]. *)
Definition countEntry (totals : Z * Z) (entry : Entry) : Z * Z :=
  let '(productiveHighImmersionTime, totalActiveTime) := totals in
  if isResting entry then (productiveHighImmersionTime, totalActiveTime)
  else
    (if isProductive entry
     then productiveHighImmersionTime + duration entry
     else productiveHighImmersionTime,
     totalActiveTime + duration entry).

Definition productivityTotals (entries : list Entry) : Z * Z :=
  fold_left countEntry entries (0, 0).

(** [calculateProductivityScore]; [None] if [Math.round] did not give an
    integer. *)
Definition calculateProductivityScore (entries : list Entry) : option Z :=
  let '(productiveHighImmersionTime, totalActiveTime) :=
    productivityTotals entries in
  if totalActiveTime =? 0 then Some 0
  else
    Math_round
      (Z2F productiveHighImmersionTime / Z2F totalActiveTime * Z2F 100)%float.

(** Spec side: the shape [dd:dd] that the time pattern captures. *)
Definition timeFormat (s : str) : bool :=
  match takeTime s with
  | Some (_, []) => true
  | _ => false
  end.



(** Spec side: membership in the fixed category set. *)
Definition inCategorySet (e : Entry) : Prop := category e ∈ CATEGORY_ORDER.

(** The log of the end-to-end example, and a one-line log. *)
Definition EXAMPLE_LOG : str :=
  Eval vm_compute in js "- 09:00 ~ 10:00 閱讀 ❚❚❚
- 10:00 ~ 11:30 開會 ❚❚".

Definition ONE_LINE_LOG : str := Eval vm_compute in js "09:00 ~ 10:00 x".

(** A response that is a JSON array of one string which is no category,
    [[ "foo" ]] without the spaces, and a [JSON.parse] that reads it. *)
Definition FOO_RESPONSE : str := [91; 34; 102; 111; 111; 34; 93]%N.

Definition parseFoo (s : str) : option parsed :=
  if bool_decide (s = FOO_RESPONSE) then Some (Labels [js "foo"]) else None.

(** Spec side: the entries the parser adds for the lines [lines], the
    first of which is at position [index]. *)
Fixpoint lineEntries (index : Z) (lines : list str) : list Entry :=
  match lines with
  | [] => []
  | line :: rest =>
      entries (parseLine line index (mkParsedLog [] [] []))
        ++ lineEntries (index + 1) rest
  end.

(** Spec side: sums of durations. *)
Definition sumZ (l : list Z) : Z := foldr Z.add 0 l.

Definition minutesAtLevel (level : Z) (es : list Entry) : Z :=
  sumZ (map duration (filter (fun e => immersion e = level) es)).

Definition totalActiveMinutes (es : list Entry) : Z :=
  sumZ (map duration (activeEntries es)).

Definition productiveHighImmersionMinutes (es : list Entry) : Z :=
  sumZ (map duration (filter (fun e => isProductive e) (activeEntries es))).

(** Spec side: one record for a consecutive pair exactly when the
    absolute difference of the immersions reaches the threshold. *)
Definition transitionOf (pair : Entry * Entry) : option Transition.t :=
  let '(previous, current) := pair in
  if 2 <=? Z.abs (immersion current - immersion previous)
  then Some (transitionRecord previous current)
  else None.

Definition consecutivePairs (l : list Entry) : list (Entry * Entry) :=
  zip l (tail l).

(** Two logs: one entry of no length, and 23 productive minutes out of
    40 active ones. *)
Definition ZERO_LENGTH_LOG : str :=
  Eval vm_compute in js "09:00 ~ 09:00 stretch |||".

Definition SCORE_LOG : str :=
  Eval vm_compute in js "09:00 ~ 09:23 工作 ❚❚❚❚
09:23 ~ 09:40 lunch ❚".

(** A day of rest only: a log of one line, categorized by the fallback
    and gap-filled. *)
Definition RESTING_DAY : list Entry :=
  default []
    (addSleepPeriodIfMissing
       (categorizeWithKeywords asciiLowerCase
          (entries (parseLogText (js "01:00 ~ 02:00 sleep"))))).

(** The entries of the two logs above, categorized by the fallback. *)
Definition ZERO_LENGTH_DAY : list Entry :=
  categorizeWithKeywords asciiLowerCase (entries (parseLogText ZERO_LENGTH_LOG)).

Definition SCORE_DAY : list Entry :=
  categorizeWithKeywords asciiLowerCase (entries (parseLogText SCORE_LOG)).

(** ** More of the analyzer, and of [js/main.js] and [js/ui.js] *)

(** The names a plain object inherits from [Object.prototype]: on an
    object made by [{}] the value at such a key is the inherited member,
    not [undefined], also when the object has no key of its own. *)
Definition OBJECT_PROTOTYPE_KEYS : list (list N) :=
  Eval vm_compute in
    map js ["constructor"; "__proto__"; "hasOwnProperty"; "isPrototypeOf";
            "propertyIsEnumerable"; "toLocaleString"; "toString"; "valueOf";
            "__defineGetter__"; "__defineSetter__"; "__lookupGetter__";
            "__lookupSetter__"]%string.

Definition inherited (key : list N) : bool :=
  bool_decide (key ∈ OBJECT_PROTOTYPE_KEYS).

(** Spec side: an entry whose category is no inherited name. On such
    categories an object used as a map is a finite map on its own keys. *)
Definition plainCategory (e : Entry) : Prop := inherited (category e) = false.

(** [grouped[entry.category].push(entry)] on an array that is there or
    has just been made. *)
Definition pushToGroup (grouped : gmap (list N) (list Entry)) (entry : Entry)
  : gmap (list N) (list Entry) :=
  <[category entry := default [] (grouped !! category entry) ++ [entry]]>
    grouped.

(** The body of the [forEach] of [groupEntriesByCategory]; [None] when it
    throws. For an inherited name [grouped[entry.category]] is the
    inherited member, which is truthy: no array is made, and [push], which
    the member does not have, is not a function. *)
Definition addToGroup (grouped : gmap (list N) (list Entry)) (entry : Entry)
  : option (gmap (list N) (list Entry)) :=
  if inherited (category entry) then None
  else Some (pushToGroup grouped entry).

Fixpoint groupInto (grouped : gmap (list N) (list Entry))
  (entries : list Entry) : option (gmap (list N) (list Entry)) :=
  match entries with
  | [] => Some grouped
  | entry :: rest =>
      match addToGroup grouped entry with
      | Some grouped => groupInto grouped rest
      | None => None
      end
  end.

(** [groupEntriesByCategory]: a category gets its array at its first
    entry, and every entry is pushed at the end of its category's array;
    [None] when the function throws. *)
Definition groupEntriesByCategory (entries : list Entry)
  : option (gmap (list N) (list Entry)) :=
  groupInto ∅ entries.

(** The columns of [renderCategoryKanban]: one card for each category of
    [CATEGORY_ORDER], made of [groupedEntries[category] || []]. *)
Definition kanbanColumns (groupedEntries : gmap (list N) (list Entry))
  : list (list N * list Entry) :=
  map (fun category => (category, default [] (groupedEntries !! category)))
    CATEGORY_ORDER.

(** [handleKanbanDrop] on the entries of the application state: [find]
    takes the first entry whose id equals [entryId], the number the
    dragged text reads as, and its category is written when it differs. *)
Fixpoint handleKanbanDrop (entryId : Z) (newCategory : list N)
  (entries : list Entry) : list Entry :=
  match entries with
  | [] => []
  | entry :: rest =>
      if bool_decide (id entry = entryId) then
        (if bool_decide (category entry <> newCategory)
         then setCategory newCategory entry
         else entry) :: rest
      else entry :: handleKanbanDrop entryId newCategory rest
  end.

(** The data of [renderImmersionDistChart], from level 5 down to level 1,
    each [distribution[level] || 0], and its test for the placeholder
    chart, [dataArray.every(value => value === 0)]. *)
Definition distributionData (distribution : gmap Z Z) : list Z :=
  map (fun level => default 0 (distribution !! level)) [5; 4; 3; 2; 1].

Definition showsEmptyPie (distribution : gmap Z Z) : bool :=
  forallb (fun value => value =? 0) (distributionData distribution).

(** Spec side: the minutes of a category, and the sum of the values of a
    statistics object. *)
Definition minutesInCategory (c : list N) (es : list Entry) : Z :=
  sumZ (map duration (filter (fun e => category e = c) es)).

Definition sumValues (stats : gmap (list N) Z) : Z :=
  map_fold (fun _ minutes acc => minutes + acc) 0 stats.

(** Spec side: all of an entry but its category, and an entry whose
    duration is the one its times give. *)
Definition fieldsOf (e : Entry) : Z * list N * list N * list N * Z * Z :=
  (id e, start e, end_ e, content e, immersion e, duration e).

Definition durationConsistent (e : Entry) : Prop :=
  calculateDuration (start e) (end_ e) = Some (duration e).

(** Spec side: an entry that [analyzeImmersionByCategory] counts. *)
Definition qualifies (e : Entry) : bool :=
  negb (isResting e) && negb (bool_decide (immersion e = 0)).

(** Spec side: the entries that count for the category [c] in
    [analyzeImmersionByCategory], and the sum of immersion times duration. *)
Definition qualifyingIn (c : list N) (es : list Entry) : list Entry :=
  filter (fun e => qualifies e = true /\ category e = c) es.

Definition weightedImmersion (es : list Entry) : Z :=
  sumZ (map (fun e => immersion e * duration e) es).

(** Spec side: a string that [trim] leaves as it is, and the number of
    items of a parsed log. *)
Definition trimmed (s : list N) : Prop := trim s = s.

Definition itemCount (r : ParsedLog) : nat :=
  (length (entries r) + length (thoughts r) + length (actions r))%nat.

(** The entries that [renderImmersionChart] draws, with its labels and
    its data. *)
Definition chartEntries (entries : list Entry) : list Entry :=
  filter (fun entry => category entry <> CATEGORIES.RELAX_BED
                       /\ 0 < immersion entry) entries.

Definition immersionChartData (entries : list Entry) : list (list N) * list Z :=
  (map start (chartEntries entries), map immersion (chartEntries entries)).

(** Spec side: [100 * p / t] lies half-way between two integers. *)
Definition isTie (p t : Z) : bool := (200 * p) mod (2 * t) =? t.

(** ** Checking the score by computation *)

(** [s] is [round(100 * p / t)], or one less when [100 * p / t] is
    half-way between two integers. *)
Definition nearPercent (p t s : Z) : bool :=
  let x := 200 * p + t in
  ((2 * t * s <=? x) && (x <? 2 * t * (s + 1))) || (x =? 2 * t * (s + 1)).

(** [Z2F] on the integers of 63 bits, by the primitive conversion. *)
Definition fastZ2F (z : Z) : float := PrimFloat.of_uint63 (Uint63.of_Z z).

(** Numbers of 63 bits: two powers of two, the bounds of the biased
    exponent of a number whose last bit weighs from [2^-62] to [2^-1], the
    bias of that exponent, and small numbers. *)
Definition TWO52 : PrimInt63.int := Eval vm_compute in Uint63.of_Z (2 ^ 52).
Definition TWO53 : PrimInt63.int := Eval vm_compute in Uint63.of_Z (2 ^ 53).
Definition EXP_LOW : PrimInt63.int := Eval vm_compute in Uint63.of_Z 2092.
Definition EXP_HIGH : PrimInt63.int := Eval vm_compute in Uint63.of_Z 2153.
Definition EXP_BIAS : PrimInt63.int := Eval vm_compute in Uint63.of_Z 2154.
Definition INT_0 : PrimInt63.int := Eval vm_compute in Uint63.of_Z 0.
Definition INT_1 : PrimInt63.int := Eval vm_compute in Uint63.of_Z 1.
Definition INT_2 : PrimInt63.int := Eval vm_compute in Uint63.of_Z 2.
Definition INT_200 : PrimInt63.int := Eval vm_compute in Uint63.of_Z 200.
Definition HUNDRED : float := Eval vm_compute in fastZ2F 100.

(** [Math.round] on the numbers of 63 bits, for a number that is zero or
    positive with its last bit below the unit: the mantissa plus a half
    unit, shifted to the unit. [None] where this does not apply. *)
Definition fastRound (y : float) : option PrimInt63.int :=
  if is_nan y then None
  else if is_zero y then Some INT_0
  else if is_infinity y then None
  else if get_sign y then None
  else
    let (r, se) := frshiftexp y in
    let mantissa := normfr_mantissa r in
    if PrimInt63.leb TWO52 mantissa && PrimInt63.ltb mantissa TWO53
       && PrimInt63.leb EXP_LOW se && PrimInt63.leb se EXP_HIGH
    then
      let k := PrimInt63.sub EXP_BIAS se in
      Some (PrimInt63.lsr
              (PrimInt63.add mantissa
                 (PrimInt63.lsl INT_1 (PrimInt63.sub k INT_1))) k)
    else None.

(** [nearPercent] on the numbers of 63 bits. *)
Definition nearPercentInt (p t r : PrimInt63.int) : bool :=
  let x := PrimInt63.add (PrimInt63.mul INT_200 p) t in
  let d := PrimInt63.mul INT_2 t in
  let low := PrimInt63.mul d r in
  let high := PrimInt63.add low d in
  (PrimInt63.leb low x && PrimInt63.ltb x high) || PrimInt63.eqb x high.

(** [Math.round((p / t) * 100)] is near the percentage. *)
Definition scoreNearInt (ft : float) (t p : PrimInt63.int) : bool :=
  match fastRound (of_uint63 p / ft * HUNDRED)%float with
  | Some r => PrimInt63.leb r INT_200 && nearPercentInt p t r
  | None => false
  end.

(** [P] on the [n] numbers from [i] on. *)
Fixpoint allFromInt (P : PrimInt63.int -> bool) (n : nat) (i : PrimInt63.int)
  : bool :=
  match n with
  | O => true
  | S n' => P i && allFromInt P n' (PrimInt63.add i INT_1)
  end.

(** The check for [p] from 0 to [t], for [rows] values of [t] from [t] on;
    [width] is [t + 1]. *)
Fixpoint scoresNearInt (rows : nat) (t : PrimInt63.int) (width : nat) : bool :=
  match rows with
  | O => true
  | S rows' =>
      allFromInt (scoreNearInt (of_uint63 t) t) width INT_0
      && scoresNearInt rows' (PrimInt63.add t INT_1) (S width)
  end.

(** * Properties *)

(** ** Checking a property on an initial segment of the integers *)

Lemma forall_below (P : Z -> bool) (n : nat) :
  forallb P (map Z.of_nat (seq 0 n)) = true ->
  forall z, 0 <= z < Z.of_nat n -> P z = true.
Proof.
  intros Hall z Hz.
  rewrite forallb_forall in Hall. apply Hall.
  apply in_map_iff. exists (Z.to_nat z). split; [lia|].
  apply in_seq. lia.
Qed.

Lemma forall_below2 (P : Z -> Z -> bool) (n k : nat) :
  forallb (fun a => forallb (P a) (map Z.of_nat (seq 0 k)))
    (map Z.of_nat (seq 0 n)) = true ->
  forall a b, 0 <= a < Z.of_nat n -> 0 <= b < Z.of_nat k -> P a b = true.
Proof.
  intros Hall a b Ha Hb.
  apply (forall_below (P a) k); [|exact Hb].
  exact (forall_below _ n Hall a Ha).
Qed.

(** ** Durations *)

(** The two components [calculateDuration] reads off a time. *)
Lemma time_components (h m : Z) :
  0 <= h < 100 -> 0 <= m < 100 ->
  map Number_ (split 58%N (hhmm h m)) = [Some h; Some m].
Proof.
  intros Hh Hm.
  pose (P := fun h m : Z =>
    bool_decide (map Number_ (split 58%N (hhmm h m)) = [Some h; Some m])).
  assert (HP : P h m = true).
  { apply (forall_below2 P 100 100); [vm_compute; reflexivity|lia|lia]. }
  unfold P in HP. apply bool_decide_eq_true in HP. exact HP.
Qed.

Lemma calculateDuration_hhmm (h1 m1 h2 m2 : Z) :
  0 <= h1 < 100 -> 0 <= m1 < 100 -> 0 <= h2 < 100 -> 0 <= m2 < 100 ->
  calculateDuration (hhmm h1 m1) (hhmm h2 m2) =
  Some (let minutes := minutesOf h2 m2 - minutesOf h1 m1 in
        if minutes <? 0 then minutes + 1440 else minutes).
Proof.
  intros H1 H2 H3 H4. unfold calculateDuration.
  rewrite !time_components by assumption. reflexivity.
Qed.

Lemma isDigit_range (c : N) : isDigit c = true -> 48 <= Z.of_N c <= 57.
Proof.
  unfold isDigit. rewrite andb_true_iff, !N.leb_le. lia.
Qed.

(** Every string of the shape [dd:dd] is [hhmm h m] for two numbers below
    100, so the statements on [hhmm] cover what the parser captures. *)
Lemma timeFormat_hhmm (s : str) :
  timeFormat s = true ->
  exists h m, 0 <= h < 100 /\ 0 <= m < 100 /\ s = hhmm h m.
Proof.
  unfold timeFormat, takeTime.
  destruct s as [|a [|b [|c [|d [|e r]]]]]; try discriminate.
  destruct (isDigit a) eqn:Ha; [|discriminate].
  destruct (isDigit b) eqn:Hb; [|discriminate].
  case_bool_decide as Hc; [|discriminate].
  destruct (isDigit d) eqn:Hd; [|discriminate].
  destruct (isDigit e) eqn:He; [|discriminate].
  simpl. destruct r; [|discriminate]. intros _.
  apply isDigit_range in Ha, Hb, Hd, He.
  exists (10 * (Z.of_N a - 48) + (Z.of_N b - 48)),
         (10 * (Z.of_N d - 48) + (Z.of_N e - 48)).
  split; [lia|]. split; [lia|].
  unfold hhmm, twoDigits. subst c. simpl.
  assert (Hq : forall x y, 48 <= x <= 57 -> 48 <= y <= 57 ->
             (10 * (x - 48) + (y - 48)) / 10 = x - 48 /\
             (10 * (x - 48) + (y - 48)) mod 10 = y - 48).
  { intros x y Hx Hy.
    assert ((10 * (x - 48) + (y - 48)) = (y - 48) + (x - 48) * 10) as -> by lia.
    rewrite Z.div_add, Z_mod_plus_full by lia.
    rewrite Z.div_small, Z.mod_small by lia. lia. }
  destruct (Hq (Z.of_N a) (Z.of_N b)) as [-> ->]; [lia|lia|].
  destruct (Hq (Z.of_N d) (Z.of_N e)) as [-> ->]; [lia|lia|].
  repeat f_equal; lia.
Qed.

(** C2. For valid times [h1:m1] and [h2:m2] (hours in 0..23, minutes in
    0..59), [calculateDuration] returns
    [(end_minutes - start_minutes + 1440) mod 1440], a number of
    [0..1439]; for equal times it returns [0], not [1440]. *)
Theorem calculateDuration_valid (h1 m1 h2 m2 : Z) :
  0 <= h1 < 24 -> 0 <= m1 < 60 -> 0 <= h2 < 24 -> 0 <= m2 < 60 ->
  calculateDuration (hhmm h1 m1) (hhmm h2 m2)
  = Some ((minutesOf h2 m2 - minutesOf h1 m1 + 1440) mod 1440)
  /\ 0 <= (minutesOf h2 m2 - minutesOf h1 m1 + 1440) mod 1440 <= 1439
  /\ calculateDuration (hhmm h1 m1) (hhmm h1 m1) = Some 0.
Proof.
  intros H1 H2 H3 H4.
  rewrite !calculateDuration_hhmm by lia.
  unfold minutesOf. cbv zeta.
  split; [|split].
  - f_equal. destruct (Z.ltb_spec (h2 * 60 + m2 - (h1 * 60 + m1)) 0).
    + rewrite Z.mod_small; lia.
    + replace (h2 * 60 + m2 - (h1 * 60 + m1) + 1440)
        with (h2 * 60 + m2 - (h1 * 60 + m1) + 1 * 1440) by lia.
      rewrite Z_mod_plus_full, Z.mod_small; lia.
  - pose proof (Z.mod_pos_bound (h2 * 60 + m2 - (h1 * 60 + m1) + 1440) 1440).
    lia.
  - rewrite Z.sub_diag. reflexivity.
Qed.

Lemma calculateDuration_valid_witness :
  calculateDuration (hhmm 23 30) (hhmm 1 15) = Some 105.
Proof.
  exact (proj1 (calculateDuration_valid 23 30 1 15
                  ltac:(lia) ltac:(lia) ltac:(lia) ltac:(lia))).
Defined.

(** ** The parser *)

(** A line adds no entry or one, and the array it adds to plays no part
    in it. *)
Lemma parseLine_entries (line : str) (index : Z) (acc : ParsedLog) :
  entries (parseLine line index acc)
  = entries acc ++ entries (parseLine line index (mkParsedLog [] [] [])).
Proof.
  unfold parseLine.
  case_bool_decide; simpl; [now rewrite app_nil_r|].
  destruct (matchThought _); simpl; [now rewrite app_nil_r|].
  destruct (matchAction _); simpl; [now rewrite app_nil_r|].
  destruct (matchTimeHeader _) as [tm|]; simpl; [|now rewrite app_nil_r].
  destruct (parseTimeEntry _ _ _); simpl; [reflexivity|now rewrite app_nil_r].
Qed.

Lemma parseLine_entry (line : str) (index : Z) (e : Entry) :
  e ∈ entries (parseLine line index (mkParsedLog [] [] [])) ->
  exists timeMatch,
    matchTimeHeader (trim line) = Some timeMatch
    /\ parseTimeEntry (trim line) timeMatch index = Some e.
Proof.
  unfold parseLine.
  case_bool_decide; simpl; [now intros ?%elem_of_nil|].
  destruct (matchThought _); simpl; [now intros ?%elem_of_nil|].
  destruct (matchAction _); simpl; [now intros ?%elem_of_nil|].
  destruct (matchTimeHeader _) as [tm|]; simpl; [|now intros ?%elem_of_nil].
  destruct (parseTimeEntry _ _ _) as [e'|] eqn:He; simpl;
    [|now intros ?%elem_of_nil].
  intros ->%list_elem_of_singleton. eauto.
Qed.

Lemma parseTimeEntry_fields (line : str) (timeMatch : TimeMatch) (index : Z)
  (e : Entry) :
  parseTimeEntry line timeMatch index = Some e ->
  id e = index + 1
  /\ start e = tm_start timeMatch
  /\ end_ e = tm_end timeMatch
  /\ category e = CATEGORIES.ROUTINE
  /\ calculateDuration (start e) (end_ e) = Some (duration e).
Proof.
  unfold parseTimeEntry.
  destruct (matchBars _); destruct (calculateDuration _ _) eqn:Hd;
    intros [= <-]; simpl; auto.
Qed.

Lemma parseLines_entries (lines : list str) (index : Z) (acc : ParsedLog) :
  entries (parseLines lines index acc) = entries acc ++ lineEntries index lines.
Proof.
  revert index acc. induction lines as [|line rest IH]; intros index acc; simpl.
  - now rewrite app_nil_r.
  - rewrite IH, parseLine_entries, app_assoc. reflexivity.
Qed.

Lemma lineEntries_source (lines : list str) (index : Z) (e : Entry) :
  e ∈ lineEntries index lines ->
  exists (i : nat) line timeMatch,
    lines !! i = Some line
    /\ matchTimeHeader (trim line) = Some timeMatch
    /\ parseTimeEntry (trim line) timeMatch (index + Z.of_nat i) = Some e.
Proof.
  revert index. induction lines as [|line rest IH]; intros index; simpl.
  - now intros ?%elem_of_nil.
  - intros [He|He]%elem_of_app.
    + destruct (parseLine_entry _ _ _ He) as (tm & Hm & Hp).
      exists 0%nat, line, tm. rewrite Z.add_0_r. auto.
    + destruct (IH _ He) as (i & l & tm & Hl & Hm & Hp).
      exists (S i), l, tm. repeat split; try assumption.
      rewrite <- Hp. f_equal. lia.
Qed.

(** The ids of the entries increase along the array. *)
Lemma lineEntries_ids (lines : list str) (index : Z) :
  StronglySorted Z.lt (map id (lineEntries index lines))
  /\ Forall (fun e => index < id e) (lineEntries index lines).
Proof.
  revert index. induction lines as [|line rest IH]; intros index; simpl.
  - split; constructor.
  - destruct (IH (index + 1)) as [Hs Hb].
    assert (Hb' : Forall (fun e => index + 1 < id e) (lineEntries (index + 1) rest))
      by exact Hb.
    assert (Hhead : forall e,
      e ∈ entries (parseLine line index (mkParsedLog [] [] [])) ->
      entries (parseLine line index (mkParsedLog [] [] [])) = [e]
      /\ id e = index + 1).
    { intros e He.
      destruct (parseLine_entry _ _ _ He) as (tm & Hm & Hp).
      apply parseTimeEntry_fields in Hp as Hf. destruct Hf as [Hid _].
      split; [|exact Hid].
      revert He. unfold parseLine.
      case_bool_decide; simpl; [now intros ?%elem_of_nil|].
      destruct (matchThought _); simpl; [now intros ?%elem_of_nil|].
      destruct (matchAction _); simpl; [now intros ?%elem_of_nil|].
      rewrite Hm, Hp. reflexivity. }
    destruct (entries (parseLine line index (mkParsedLog [] [] [])))
      as [|e l] eqn:Hl; simpl.
    + split; [exact Hs|].
      eapply Forall_impl; [exact Hb|]. simpl. intros; lia.
    + destruct (Hhead e) as [[= ->] Hid]; [left|]. simpl. split.
      * constructor; [exact Hs|].
        apply Forall_fmap. eapply Forall_impl; [exact Hb|]. simpl. intros; lia.
      * constructor; [lia|].
        eapply Forall_impl; [exact Hb|]. simpl. intros; lia.
Qed.

(** The time pattern captures strings of the time format only, so the
    parser always has a duration to put in the entry. *)
Lemma takeTime_format (s t r : str) :
  takeTime s = Some (t, r) -> timeFormat t = true.
Proof.
  unfold timeFormat, takeTime.
  destruct s as [|a [|b [|c [|d [|e r']]]]]; try discriminate.
  destruct (_ && _) eqn:H; [|discriminate].
  intros [= <- <-]. now rewrite H.
Qed.

Lemma matchTimeHeader_format (s : str) (timeMatch : TimeMatch) :
  matchTimeHeader s = Some timeMatch ->
  timeFormat (tm_start timeMatch) = true
  /\ timeFormat (tm_end timeMatch) = true.
Proof.
  induction s as [|x s IH]; simpl.
  - unfold matchTimeHeaderAt. simpl. discriminate.
  - destruct (matchTimeHeaderAt (x :: s)) as [m|] eqn:Hm; [|exact IH].
    intros [= <-]. unfold matchTimeHeaderAt in Hm.
    destruct (takeTime (x :: s)) as [[t1 r1]|] eqn:H1; [|discriminate].
    destruct (dropWhile isWhiteSpace r1) as [|c r2]; [discriminate|].
    destruct c as [|p]; [discriminate|].
    destruct (decide (p = 126%positive)) as [->|Hp].
    + destruct (takeTime (dropWhile isWhiteSpace r2)) as [[t2 r3]|] eqn:H2;
        [|discriminate].
      injection Hm as <-. simpl.
      split; eapply takeTime_format; eassumption.
    + exfalso. revert Hm.
      do 7 (destruct p as [p|p|]; try discriminate); congruence.
Qed.

Lemma parseTimeEntry_returns (line : str) (timeMatch : TimeMatch) (index : Z) :
  matchTimeHeader line = Some timeMatch ->
  exists e, parseTimeEntry line timeMatch index = Some e.
Proof.
  intros [Hs He]%matchTimeHeader_format.
  destruct (timeFormat_hhmm _ Hs) as (h1 & m1 & ? & ? & E1).
  destruct (timeFormat_hhmm _ He) as (h2 & m2 & ? & ? & E2).
  unfold parseTimeEntry. rewrite E1, E2.
  rewrite calculateDuration_hhmm by lia.
  destruct (matchBars _); eauto.
Qed.

Lemma parser_entry_source (rawText : str) (e : Entry) :
  e ∈ entries (parseLogText rawText) ->
  exists (i : nat) line timeMatch,
    split 10%N rawText !! i = Some line
    /\ matchTimeHeader (trim line) = Some timeMatch
    /\ parseTimeEntry (trim line) timeMatch (Z.of_nat i) = Some e.
Proof.
  unfold parseLogText. rewrite parseLines_entries. simpl. intros He.
  destruct (lineEntries_source _ _ _ He) as (i & line & tm & Hl & Hm & Hp).
  rewrite Z.add_0_l in Hp. eauto 6.
Qed.

(** The parser only makes entries whose times have the time format. *)
Lemma parser_times_format (rawText : str) :
  Forall (fun e => timeFormat (start e) = true
                   /\ timeFormat (end_ e) = true)
    (entries (parseLogText rawText)).
Proof.
  apply Forall_forall. intros e He.
  destruct (parser_entry_source rawText e He) as (i & l & tm & _ & Hm & Hp).
  apply parseTimeEntry_fields in Hp as (_ & -> & -> & _).
  now apply (matchTimeHeader_format (trim l)).
Qed.

(** ** Sorting *)

Section SortFacts.
Context {A : Type} (cmp : A -> A -> Z).

Lemma sortInsert_perm (x : A) (l : list A) :
  Permutation (x :: l) (sortInsert cmp x l).
Proof.
  induction l as [|y r IH]; simpl; [reflexivity|].
  destruct (cmp x y <=? 0); [reflexivity|].
  rewrite perm_swap. now apply perm_skip.
Qed.

Lemma sort_perm (l : list A) : Permutation l (sort cmp l).
Proof.
  induction l as [|x r IH]; simpl; [constructor|].
  rewrite <- sortInsert_perm. now apply perm_skip.
Qed.


Hypothesis cmp_total : forall x y, 0 < cmp x y -> cmp y x <= 0.
Hypothesis cmp_trans :
  forall x y z, cmp x y <= 0 -> cmp y z <= 0 -> cmp x z <= 0.


End SortFacts.





(** ** Gap-filling *)

Lemma sort_nonempty {A} (cmp : A -> A -> Z) (l : list A) :
  l <> [] -> sort cmp l <> [].
Proof.
  intros Hl Hs. apply Hl. apply Permutation_nil.
  rewrite <- Hs. symmetry. apply sort_perm.
Qed.

Lemma addSleepPeriodIfMissing_unfold (es : list Entry) first rest :
  sort byStart es = first :: rest ->
  addSleepPeriodIfMissing es =
  if bool_decide (start first = MIDNIGHT) then Some (first :: rest)
  else match calculateDuration MIDNIGHT (start first) with
       | Some d => Some (sleepEntry (start first) d :: first :: rest)
       | None => None
       end.
Proof.
  intros Hs. unfold addSleepPeriodIfMissing.
  destruct es as [|e es']; [discriminate|]. rewrite Hs.
  repeat case_bool_decide; try reflexivity; contradiction.
Qed.

Lemma midnight_duration (s : str) :
  timeFormat s = true -> exists d, calculateDuration MIDNIGHT s = Some d.
Proof.
  intros Hs. destruct (timeFormat_hhmm s Hs) as (h & m & Hh & Hm & ->).
  change MIDNIGHT with (hhmm 0 0).
  rewrite calculateDuration_hhmm by lia. eauto.
Qed.




(** ** Remote categorization *)

(** What [categorizeWithAI] does, case by case. *)
Lemma categorizeWithAI_cases (JSON_parse : str -> option parsed)
  (api : outcome str) (es : list Entry) :
  categorizeWithAI JSON_parse api es =
  match api with
  | Thrown e => (Thrown e, es)
  | Returned text =>
      match JSON_parse (trim (stripFences 0 text)) with
      | None => (Thrown JsonSyntaxError, es)
      | Some NotArray => (Thrown InvalidCategorization, es)
      | Some (Labels cs) =>
          if bool_decide (length cs = length es)
          then (Returned tt, applyCategories cs es)
          else (Thrown InvalidCategorization, es)
      end
  end.
Proof.
  unfold categorizeWithAI, bind, lift, ret, throw, getLength, modify.
  destruct api as [text|e]; [|reflexivity].
  destruct (JSON_parse _) as [[|cs]|]; try reflexivity.
  repeat case_bool_decide; try reflexivity; contradiction.
Qed.

Lemma categorizeWithAI_thrown (JSON_parse : str -> option parsed)
  (api : outcome str) (e : error) (es es' : list Entry) :
  categorizeWithAI JSON_parse api es = (Thrown e, es') -> es' = es.
Proof.
  rewrite categorizeWithAI_cases.
  destruct api as [text|e0]; [|congruence].
  destruct (JSON_parse _) as [[|cs]|]; try congruence.
  case_bool_decide; congruence.
Qed.

Lemma applyCategories_categories (cs : list str) (es : list Entry) :
  length cs = length es -> map category (applyCategories cs es) = cs.
Proof.
  intros Hlen. apply list_eq. intros i.
  unfold applyCategories. rewrite list_lookup_fmap, list_lookup_imap.
  destruct (es !! i) as [e|] eqn:He; simpl.
  - apply lookup_lt_Some in He.
    destruct (lookup_lt_is_Some_2 cs i) as [c Hc]; [lia|].
    now rewrite Hc.
  - apply lookup_ge_None in He. symmetry. apply lookup_ge_None. lia.
Qed.

(** C7. When the remote call throws, when the response does not parse,
    when it parses to something that is not an array, and when the array
    has not exactly one element per entry, [categorizeWithAI] throws and
    the entries are what they were: no category has been written. *)
Theorem categorizeWithAI_all_or_nothing (JSON_parse : str -> option parsed)
  (es : list Entry) :
  (forall e, categorizeWithAI JSON_parse (Thrown e) es = (Thrown e, es))
  /\ (forall text,
        JSON_parse (trim (stripFences 0 text)) = None ->
        categorizeWithAI JSON_parse (Returned text) es
        = (Thrown JsonSyntaxError, es))
  /\ (forall text,
        JSON_parse (trim (stripFences 0 text)) = Some NotArray ->
        categorizeWithAI JSON_parse (Returned text) es
        = (Thrown InvalidCategorization, es))
  /\ (forall text cs,
        JSON_parse (trim (stripFences 0 text)) = Some (Labels cs) ->
        length cs <> length es ->
        categorizeWithAI JSON_parse (Returned text) es
        = (Thrown InvalidCategorization, es))
  /\ (forall api e es',
        categorizeWithAI JSON_parse api es = (Thrown e, es') -> es' = es).
Proof.
  repeat split.
  - intros text H. now rewrite categorizeWithAI_cases, H.
  - intros text H. now rewrite categorizeWithAI_cases, H.
  - intros text cs H Hlen. rewrite categorizeWithAI_cases, H.
    now rewrite bool_decide_eq_false_2.
  - intros api e es'. apply categorizeWithAI_thrown.
Qed.

(** A response of one label for two entries: the call throws and the two
    categories are the ones the parser gave. *)
Lemma categorizeWithAI_all_or_nothing_witness :
  categorizeWithAI parseFoo (Returned FOO_RESPONSE)
    (entries (parseLogText EXAMPLE_LOG))
  = (Thrown InvalidCategorization, entries (parseLogText EXAMPLE_LOG)).
Proof.
  apply (proj1 (proj2 (proj2 (proj2
    (categorizeWithAI_all_or_nothing parseFoo
       (entries (parseLogText EXAMPLE_LOG))))))) with (cs := [js "foo"]).
  - reflexivity.
  - vm_compute. discriminate.
Defined.

(** ** Identifiers *)

Lemma categorizeWithKeywords_ids (toLowerCase : str -> str) (es : list Entry) :
  map id (categorizeWithKeywords toLowerCase es) = map id es.
Proof.
  unfold categorizeWithKeywords. rewrite map_map. reflexivity.
Qed.

Lemma applyCategories_ids (cs : list str) (es : list Entry) :
  map id (applyCategories cs es) = map id es.
Proof.
  apply list_eq. intros i.
  unfold applyCategories. rewrite !list_lookup_fmap, list_lookup_imap.
  destruct (es !! i) as [e|]; simpl; [|reflexivity].
  destruct (cs !! i); reflexivity.
Qed.

Lemma categorizeWithAI_ids (JSON_parse : str -> option parsed)
  (api : outcome str) (es : list Entry) :
  map id (snd (categorizeWithAI JSON_parse api es)) = map id es.
Proof.
  rewrite categorizeWithAI_cases.
  destruct api as [text|e]; [|reflexivity].
  destruct (JSON_parse _) as [[|cs]|]; try reflexivity.
  case_bool_decide; [apply applyCategories_ids|reflexivity].
Qed.

(** C9, as the code has it. The entry the parser makes of the line at
    0-based position [i] has [id = i + 1], the 1-based position of the
    line (not that position plus one): ids are positive, [0] is never
    given, they increase along the array, and neither categorizer changes
    them. *)
Theorem parser_ids (rawText : str) :
  (forall e, e ∈ entries (parseLogText rawText) ->
     exists (i : nat) line timeMatch,
       split 10%N rawText !! i = Some line
       /\ matchTimeHeader (trim line) = Some timeMatch
       /\ parseTimeEntry (trim line) timeMatch (Z.of_nat i) = Some e
       /\ id e = Z.of_nat i + 1
       /\ 0 < id e)
  /\ StronglySorted Z.lt (map id (entries (parseLogText rawText)))
  /\ (forall toLowerCase,
        map id (categorizeWithKeywords toLowerCase
                  (entries (parseLogText rawText)))
        = map id (entries (parseLogText rawText)))
  /\ (forall JSON_parse api,
        map id (snd (categorizeWithAI JSON_parse api
                       (entries (parseLogText rawText))))
        = map id (entries (parseLogText rawText))).
Proof.
  split; [|split; [|split]].
  - intros e He.
    destruct (parser_entry_source rawText e He) as (i & line & tm & Hl & Hm & Hp).
    exists i, line, tm. repeat split; try assumption.
    + now apply parseTimeEntry_fields in Hp as [-> _].
    + apply parseTimeEntry_fields in Hp as [-> _]. lia.
  - unfold parseLogText. rewrite parseLines_entries. simpl.
    apply lineEntries_ids.
  - intros. apply categorizeWithKeywords_ids.
  - intros. apply categorizeWithAI_ids.
Qed.

Lemma parser_ids_witness :
  exists (i : nat) line timeMatch,
    split 10%N ONE_LINE_LOG !! i = Some line
    /\ matchTimeHeader (trim line) = Some timeMatch
    /\ parseTimeEntry (trim line) timeMatch (Z.of_nat i)
       = Some (mkEntry 1 (js "09:00") (js "10:00") (js "x") 0 60
                 CATEGORIES.ROUTINE)
    /\ id (mkEntry 1 (js "09:00") (js "10:00") (js "x") 0 60
             CATEGORIES.ROUTINE) = Z.of_nat i + 1
    /\ 0 < id (mkEntry 1 (js "09:00") (js "10:00") (js "x") 0 60
                 CATEGORIES.ROUTINE).
Proof.
  apply (proj1 (parser_ids ONE_LINE_LOG)).
  vm_compute. left.
Defined.

(** C9, as stated. The only line of [ONE_LINE_LOG] has 1-based index 1;
    the entry made of it has [id] 1, which is not that index plus one. *)
Lemma parser_id_not_index_plus_one :
  exists e,
    entries (parseLogText ONE_LINE_LOG) = [e]
    /\ id e = 1
    /\ id e <> 1 + 1.
Proof.
  eexists. split; [vm_compute; reflexivity|]. simpl. split; lia.
Qed.

(** ** The category of an entry *)

Lemma parser_category (rawText : str) :
  Forall (fun e => category e = CATEGORIES.ROUTINE)
    (entries (parseLogText rawText)).
Proof.
  apply Forall_forall. intros e He.
  destruct (parser_entry_source rawText e He) as (i & l & tm & _ & _ & Hp).
  now apply parseTimeEntry_fields in Hp.
Qed.

Lemma getCategoryByKeyword_in_set (toLowerCase : str -> str)
  (content startTime : str) :
  getCategoryByKeyword toLowerCase content startTime ∈ CATEGORY_ORDER.
Proof.
  unfold getCategoryByKeyword, CATEGORY_ORDER.
  repeat match goal with
         | |- context [if ?b then _ else _] => destruct b
         end; set_solver.
Qed.

Lemma addSleepPeriodIfMissing_Forall (P : Entry -> Prop) (es r : list Entry) :
  (forall until d, P (sleepEntry until d)) ->
  Forall P es -> addSleepPeriodIfMissing es = Some r -> Forall P r.
Proof.
  intros Hsleep Hes.
  destruct (sort byStart es) as [|first rest] eqn:Hs.
  - destruct es as [|e es']; simpl.
    + now intros [= <-].
    + exfalso. now apply (sort_nonempty byStart (e :: es')).
  - assert (Hsorted : Forall P (first :: rest)).
    { rewrite <- Hs, <- sort_perm. exact Hes. }
    rewrite (addSleepPeriodIfMissing_unfold es first rest Hs).
    case_bool_decide; [now intros [= <-]|].
    destruct (calculateDuration _ _); [|discriminate].
    intros [= <-]. constructor; [apply Hsleep|exact Hsorted].
Qed.

Lemma writeBack_Forall (P : Entry -> Prop) (es updated : list Entry) :
  Forall P es -> Forall P updated -> Forall P (writeBack es updated).
Proof.
  intros Hes. revert updated.
  induction Hes as [|e es He _ IH]; intros updated Hu; simpl; [constructor|].
  case_bool_decide.
  - destruct Hu as [|u us Hu Hus]; constructor; auto.
  - constructor; auto.
Qed.

(** C1, as the code has it. After parsing (every category is the routine
    default), after the keyword fallback and after gap-filling, the
    category of every entry is one of the six of the fixed set. After a
    [categorizeWithAI] that returns, the categories are the strings of
    the response, in order and unchecked: all of them are in the set
    exactly when all the strings of the response are. After a
    [categorizeWithAI] that throws, they are what they were, and the
    categorization step of [handleAnalyzeLog], which then falls back on
    the keywords, leaves every category in the set. *)
Theorem category_in_set (JSON_parse : str -> option parsed)
  (toLowerCase : str -> str) :
  (forall rawText,
     Forall (fun e => category e = CATEGORIES.ROUTINE)
       (entries (parseLogText rawText))
     /\ Forall inCategorySet (entries (parseLogText rawText)))
  /\ (forall es, Forall inCategorySet (categorizeWithKeywords toLowerCase es))
  /\ (forall es r,
        Forall inCategorySet es -> addSleepPeriodIfMissing es = Some r ->
        Forall inCategorySet r)
  /\ (forall api es es',
        categorizeWithAI JSON_parse api es = (Returned tt, es') ->
        exists text cs,
          api = Returned text
          /\ JSON_parse (trim (stripFences 0 text)) = Some (Labels cs)
          /\ map category es' = cs
          /\ (Forall inCategorySet es'
              <-> Forall (fun c => c ∈ CATEGORY_ORDER) cs))
  /\ (forall api e es es',
        categorizeWithAI JSON_parse api es = (Thrown e, es') -> es' = es)
  /\ (forall api es,
        Forall inCategorySet es ->
        match api with
        | Some response =>
            exists e us,
              categorizeWithAI JSON_parse response (getUserEntries es)
              = (Thrown e, us)
        | None => True
        end ->
        Forall inCategorySet
          (categorizeEntries JSON_parse toLowerCase api es)).
Proof.
  assert (Hkw : forall es,
            Forall inCategorySet (categorizeWithKeywords toLowerCase es)).
  { intros es. unfold categorizeWithKeywords.
    apply Forall_forall. intros e [e0 [-> _]]%list_elem_of_fmap.
    apply getCategoryByKeyword_in_set. }
  split; [|split; [exact Hkw|split; [|split; [|split]]]].
  - intros rawText. split; [apply parser_category|].
    eapply Forall_impl; [apply parser_category|].
    intros e He. unfold inCategorySet, CATEGORY_ORDER. rewrite He. set_solver.
  - intros es r. apply addSleepPeriodIfMissing_Forall.
    intros until d. unfold inCategorySet, CATEGORY_ORDER. simpl. set_solver.
  - intros api es es'. rewrite categorizeWithAI_cases.
    destruct api as [text|e]; [|discriminate].
    destruct (JSON_parse _) as [[|cs]|] eqn:Hp; try discriminate.
    case_bool_decide as Hlen; [|discriminate].
    intros [= <-]. exists text, cs.
    rewrite (applyCategories_categories cs es Hlen).
    repeat split; try reflexivity; try assumption.
    + intros H. rewrite <- (applyCategories_categories cs es Hlen).
      now apply Forall_fmap.
    + intros H. rewrite <- (applyCategories_categories cs es Hlen) in H.
      now apply Forall_fmap in H.
  - intros api e es es'. apply categorizeWithAI_thrown.
  - intros api es Hes Hapi. unfold categorizeEntries. cbv zeta.
    destruct api as [response|]; [|now apply writeBack_Forall].
    destruct (getUserEntries es) as [|u us] eqn:Hu;
      [now apply writeBack_Forall|].
    destruct Hapi as (e & us' & ->). now apply writeBack_Forall.
Qed.

Lemma category_in_set_witness :
  Forall inCategorySet
    (sleepEntry (js "09:00") 540 :: entries (parseLogText EXAMPLE_LOG)).
Proof.
  apply (proj1 (proj2 (proj2 (category_in_set parseFoo asciiLowerCase)))
           (entries (parseLogText EXAMPLE_LOG))).
  - vm_compute. repeat constructor.
  - vm_compute. reflexivity.
Defined.

(** C1, as stated. The response [FOO_RESPONSE] has one string for the one
    entry of [ONE_LINE_LOG]: [categorizeWithAI] returns, and the entry's
    category is then that string, which is none of the six. *)
Lemma categorizeWithAI_free_text :
  exists e,
    categorizeWithAI parseFoo (Returned FOO_RESPONSE)
      (entries (parseLogText ONE_LINE_LOG)) = (Returned tt, [e])
    /\ ~ inCategorySet e.
Proof.
  eexists. split; [vm_compute; reflexivity|].
  unfold inCategorySet, CATEGORY_ORDER. simpl.
  rewrite !elem_of_cons, elem_of_nil.
  intros [H|[H|[H|[H|[H|[H|[]]]]]]]; discriminate H.
Qed.

(** ** The keyword fallback *)

(** The hour [getCategoryByKeyword] reads off a start time. *)
Lemma start_hour (h m : Z) :
  0 <= h < 100 -> 0 <= m < 100 ->
  parseInt (default [] (head (split 58%N (hhmm h m)))) = Some h.
Proof.
  intros Hh Hm.
  pose (P := fun h m : Z =>
    bool_decide
      (parseInt (default [] (head (split 58%N (hhmm h m)))) = Some h)).
  assert (HP : P h m = true).
  { apply (forall_below2 P 100 100); [vm_compute; reflexivity|lia|lia]. }
  unfold P in HP. apply bool_decide_eq_true in HP. exact HP.
Qed.

Lemma firstMatch_cons (ks : list str) (c : str)
  (rules : list (list str * str)) (s : str) :
  firstMatch ((ks, c) :: rules) s
  = if matchAny ks s then Some c else firstMatch rules s.
Proof.
  unfold firstMatch. cbn [find fst]. now destruct (matchAny ks s).
Qed.

Lemma getCategoryByKeyword_rules (toLowerCase : str -> str)
  (text startTime : str) :
  getCategoryByKeyword toLowerCase text startTime
  = categoryByRules (toLowerCase text)
      (parseInt (default [] (head (split 58%N startTime)))).
Proof.
  unfold getCategoryByKeyword, categoryByRules, KEYWORD_RULES.
  rewrite !firstMatch_cons.
  destruct (matchAny RELAX_KEYWORDS _); [reflexivity|].
  destruct (matchAny WORK_KEYWORDS _); [reflexivity|].
  destruct (matchAny DEVELOPMENT_KEYWORDS _); [reflexivity|].
  destruct (matchAny FAMILY_KEYWORDS _); [reflexivity|].
  cbn. destruct (parseInt _); reflexivity.
Qed.

(** C8. [getCategoryByKeyword] is a function of the content and the start
    time (so the fallback is total and deterministic), and it is the rule
    table read top to bottom: resting keywords, then work, then
    development, then family, then the hour rule (start hour in [0,7)
    gives resting), then routine. [categorizeWithKeywords] gives every
    entry the category so decided and changes nothing else. *)
Theorem keyword_fallback_rules (toLowerCase : str -> str)
  (text startTime : str) :
  let lowerContent := toLowerCase text in
  let hour := parseInt (default [] (head (split 58%N startTime))) in
  let c := getCategoryByKeyword toLowerCase text startTime in
  c = categoryByRules lowerContent hour
  /\ (matchAny RELAX_KEYWORDS lowerContent = true ->
      c = CATEGORIES.RELAX_BED)
  /\ (matchAny RELAX_KEYWORDS lowerContent = false ->
      matchAny WORK_KEYWORDS lowerContent = true ->
      c = CATEGORIES.WORK)
  /\ (matchAny RELAX_KEYWORDS lowerContent = false ->
      matchAny WORK_KEYWORDS lowerContent = false ->
      matchAny DEVELOPMENT_KEYWORDS lowerContent = true ->
      c = CATEGORIES.DEVELOPMENT)
  /\ (matchAny RELAX_KEYWORDS lowerContent = false ->
      matchAny WORK_KEYWORDS lowerContent = false ->
      matchAny DEVELOPMENT_KEYWORDS lowerContent = false ->
      matchAny FAMILY_KEYWORDS lowerContent = true ->
      c = CATEGORIES.FAMILY)
  /\ (matchAny RELAX_KEYWORDS lowerContent = false ->
      matchAny WORK_KEYWORDS lowerContent = false ->
      matchAny DEVELOPMENT_KEYWORDS lowerContent = false ->
      matchAny FAMILY_KEYWORDS lowerContent = false ->
      forall h, hour = Some h ->
      (0 <= h < 7 -> c = CATEGORIES.RELAX_BED)
      /\ (~ 0 <= h < 7 -> c = CATEGORIES.ROUTINE))
  /\ (forall h m, 0 <= h < 24 -> 0 <= m < 60 -> startTime = hhmm h m ->
      hour = Some h)
  /\ (forall es,
        categorizeWithKeywords toLowerCase es
        = map (fun e =>
                 setCategory
                   (categoryByRules (toLowerCase (content e))
                      (parseInt (default [] (head (split 58%N (start e))))))
                   e) es).
Proof.
  cbv zeta.
  pose proof (getCategoryByKeyword_rules toLowerCase text startTime) as Hrules.
  split; [exact Hrules|].
  unfold getCategoryByKeyword.
  split; [now intros ->|].
  split; [now intros -> ->|].
  split; [now intros -> -> ->|].
  split; [now intros -> -> -> ->|].
  split; [|split].
  - intros -> -> -> -> h ->.
    destruct (Z.leb_spec 0 h), (Z.ltb_spec h 7); simpl;
      split; intros; try reflexivity; lia.
  - intros h m Hh Hm ->. apply start_hour; lia.
  - intros es. unfold categorizeWithKeywords.
    apply map_ext. intros e.
    f_equal. apply getCategoryByKeyword_rules.
Qed.

(** The second line of the example log: a work keyword, no resting one. *)
Lemma keyword_fallback_rules_witness :
  getCategoryByKeyword asciiLowerCase (js "開會") (js "10:00")
  = CATEGORIES.WORK.
Proof.
  apply (proj1 (proj2 (proj2
    (keyword_fallback_rules asciiLowerCase (js "開會") (js "10:00")))));
    reflexivity.
Defined.

(** ** Immersion distribution *)

Lemma minutesAtLevel_cons (level : Z) (e : Entry) (es : list Entry) :
  minutesAtLevel level (e :: es)
  = (if bool_decide (immersion e = level) then duration e else 0)
    + minutesAtLevel level es.
Proof.
  unfold minutesAtLevel. rewrite filter_cons.
  case_bool_decide; case_decide; try contradiction; reflexivity.
Qed.

Lemma fold_addToLevel_lookup (es : list Entry) (d : gmap Z Z) (level : Z) :
  1 <= level <= 5 ->
  fold_left addToLevel es d !! level
  = (fun minutes => minutes + minutesAtLevel level es) <$> d !! level.
Proof.
  intros Hl. revert d. induction es as [|e es IH]; intros d.
  - simpl. destruct (d !! level); simpl; [f_equal; unfold minutesAtLevel;
      simpl; lia|reflexivity].
  - simpl. rewrite IH, minutesAtLevel_cons. unfold addToLevel.
    destruct (Z.leb_spec 1 (immersion e)), (Z.leb_spec (immersion e) 5);
      simpl; case_bool_decide; try lia.
    all: try (subst level; rewrite lookup_alter_eq).
    all: try (rewrite lookup_alter_ne by congruence).
    all: destruct (d !! _); simpl; [f_equal; lia|reflexivity].
Qed.

Lemma fold_addToLevel_dom (es : list Entry) (d : gmap Z Z) :
  dom (fold_left addToLevel es d) = dom d.
Proof.
  revert d. induction es as [|e es IH]; intros d; simpl; [reflexivity|].
  rewrite IH. unfold addToLevel.
  destruct (_ && _); [apply dom_alter_L|reflexivity].
Qed.

Lemma fold_addToLevel_skip (es : list Entry) (e : Entry) (d : gmap Z Z) :
  ~ 1 <= immersion e <= 5 ->
  fold_left addToLevel (e :: es) d = fold_left addToLevel es d.
Proof.
  intros He. simpl. f_equal. unfold addToLevel.
  destruct (Z.leb_spec 1 (immersion e)), (Z.leb_spec (immersion e) 5);
    simpl; try reflexivity; lia.
Qed.

Lemma fold_addToCategory_absent (c : list N) (es : list Entry)
  (stats : gmap (list N) Z) :
  Forall (fun e => category e <> c) es ->
  stats !! c = None -> fold_left addToCategory es stats !! c = None.
Proof.
  intros Hes. revert stats.
  induction Hes as [|e es He _ IH]; intros stats Hs; [exact Hs|].
  simpl. apply IH. unfold addToCategory. now rewrite lookup_insert_ne.
Qed.

(** C10. [calculateImmersionDistribution] returns a map on exactly the
    levels 1 to 5; the value at a level is the sum of the durations of
    the entries whose immersion is that level ([0] when there is none,
    where [calculateCategoryStats] has no key for a category without an
    entry); an entry whose immersion is [0], or more than [5], changes no
    level. *)
Theorem immersion_distribution (es : list Entry) :
  dom (calculateImmersionDistribution es) = list_to_set [1; 2; 3; 4; 5]
  /\ (forall level, 1 <= level <= 5 ->
        calculateImmersionDistribution es !! level
        = Some (minutesAtLevel level es))
  /\ (forall level, ~ 1 <= level <= 5 ->
        calculateImmersionDistribution es !! level = None)
  /\ (forall level, 1 <= level <= 5 ->
        Forall (fun e => immersion e <> level) es ->
        calculateImmersionDistribution es !! level = Some 0)
  /\ (forall es1 e es2, es = es1 ++ e :: es2 ->
        ~ 1 <= immersion e <= 5 ->
        calculateImmersionDistribution es
        = calculateImmersionDistribution (es1 ++ es2))
  /\ (forall c, Forall (fun e => category e <> c) es ->
        calculateCategoryStats es !! c = None).
Proof.
  assert (Hdom : dom (calculateImmersionDistribution es)
                 = list_to_set [1; 2; 3; 4; 5]).
  { unfold calculateImmersionDistribution. rewrite fold_addToLevel_dom.
    rewrite !dom_insert_L, dom_empty_L. set_solver. }
  assert (Hin : forall level, 1 <= level <= 5 ->
            calculateImmersionDistribution es !! level
            = Some (minutesAtLevel level es)).
  { intros level Hl. unfold calculateImmersionDistribution.
    rewrite fold_addToLevel_lookup by exact Hl.
    assert (level = 1 \/ level = 2 \/ level = 3 \/ level = 4 \/ level = 5)
      as [->|[->|[->|[->| ->]]]] by lia; reflexivity. }
  split; [exact Hdom|]. split; [exact Hin|]. split; [|split; [|split]].
  - intros level Hl. apply not_elem_of_dom. rewrite Hdom.
    rewrite !list_to_set_cons, list_to_set_nil.
    rewrite !elem_of_union, !elem_of_singleton, elem_of_empty. lia.
  - intros level Hl Hnone. rewrite Hin by exact Hl. f_equal.
    clear Hdom Hin. induction Hnone as [|e l He _ IH]; [reflexivity|].
    rewrite minutesAtLevel_cons, IH.
    rewrite bool_decide_eq_false_2 by exact He. reflexivity.
  - intros es1 e es2 -> He. unfold calculateImmersionDistribution.
    rewrite !fold_left_app. now rewrite fold_addToLevel_skip.
  - intros c Hc. now apply fold_addToCategory_absent.
Qed.

Lemma immersion_distribution_witness :
  calculateImmersionDistribution (entries (parseLogText EXAMPLE_LOG)) !! 3
  = Some 60.
Proof.
  apply (proj1 (proj2
    (immersion_distribution (entries (parseLogText EXAMPLE_LOG))))).
  lia.
Defined.

(** ** Energy transitions *)

Lemma consecutivePairs_length (l : list Entry) :
  length (consecutivePairs l) = (length l - 1)%nat.
Proof.
  unfold consecutivePairs. rewrite length_zip.
  destruct l; cbn [tail length]; lia.
Qed.

Lemma consecutivePairs_lookup (l : list Entry) (j : nat) (pair : Entry * Entry) :
  consecutivePairs l !! j = Some pair ->
  l !! j = Some (fst pair) /\ l !! S j = Some (snd pair).
Proof.
  unfold consecutivePairs. destruct pair as [p c].
  intros (x & y & [= <- <-] & Hx & Hy)%lookup_zip_with_Some.
  rewrite lookup_tail in Hy. auto.
Qed.

Lemma transitionStep_pair (l : list Entry) (acc : list Transition.t) (j : nat)
  (pair : Entry * Entry) :
  consecutivePairs l !! j = Some pair ->
  transitionStep l acc (S j) = acc ++ option_list (transitionOf pair).
Proof.
  intros [Hp Hc]%consecutivePairs_lookup. destruct pair as [p c].
  unfold transitionStep, transitionOf. simpl in *.
  rewrite Nat.sub_0_r, Hp, Hc.
  unfold THRESHOLDS.ENERGY_CHANGE.
  destruct (2 <=? Z.abs (immersion c - immersion p)); simpl;
    [reflexivity|now rewrite app_nil_r].
Qed.

Lemma omap_snoc {A B} (f : A -> option B) (l : list A) (x : A) :
  omap f (l ++ [x]) = omap f l ++ option_list (f x).
Proof.
  rewrite omap_app. cbn. now destruct (f x).
Qed.

Lemma omap_length_le {A B} (f : A -> option B) (l : list A) :
  (length (omap f l) <= length l)%nat.
Proof.
  induction l as [|y l IH]; [reflexivity|].
  change (omap f (y :: l))
    with (match f y with Some b => b :: omap f l | None => omap f l end).
  destruct (f y); simpl; lia.
Qed.

(** The loop, after [k] rounds, has gone through the first [k] pairs. *)
Lemma transition_loop (l : list Entry) (k : nat) :
  (k <= length (consecutivePairs l))%nat ->
  fold_left (transitionStep l) (seq 1 k) []
  = omap transitionOf (take k (consecutivePairs l)).
Proof.
  induction k as [|k IH]; intros Hk; [reflexivity|].
  rewrite seq_S, fold_left_app, IH by lia. simpl.
  destruct (lookup_lt_is_Some_2 (consecutivePairs l) k) as [pair Hpair];
    [lia|].
  rewrite (take_S_r _ _ _ Hpair), omap_snoc.
  now apply transitionStep_pair.
Qed.

(** C5, as the code has it. [identifyEnergyTransitions] drops the resting
    entries, keeping the order, and gives one record for a consecutive
    pair of what is left exactly when the absolute difference of the two
    immersions is at least 2. The list has at most one record fewer than
    there are active entries: it is shorter than the number of active
    entries when there is one, and it is empty, as that number is zero,
    when there is none. *)
Theorem energy_transitions (es : list Entry) :
  activeEntries es = filter (fun e => category e <> CATEGORIES.RELAX_BED) es
  /\ identifyEnergyTransitions es
     = omap transitionOf (consecutivePairs (activeEntries es))
  /\ (length (identifyEnergyTransitions es)
      <= length (activeEntries es) - 1)%nat
  /\ (activeEntries es <> [] ->
      (length (identifyEnergyTransitions es) < length (activeEntries es))%nat)
  /\ (activeEntries es = [] -> identifyEnergyTransitions es = []).
Proof.
  assert (Heq : identifyEnergyTransitions es
                = omap transitionOf (consecutivePairs (activeEntries es))).
  { unfold identifyEnergyTransitions. cbv zeta.
    rewrite transition_loop by (rewrite consecutivePairs_length; lia).
    rewrite <- consecutivePairs_length. now rewrite firstn_all. }
  assert (Hlen : (length (identifyEnergyTransitions es)
                  <= length (activeEntries es) - 1)%nat).
  { rewrite Heq, <- consecutivePairs_length. apply omap_length_le. }
  split; [|split; [exact Heq|split; [exact Hlen|split]]].
  - unfold activeEntries. apply list_filter_iff. intros e.
    unfold isResting. case_bool_decide; simpl; tauto.
  - intros Hne. destruct (activeEntries es); [contradiction|].
    simpl in *. lia.
  - intros Hnil. rewrite Heq, Hnil. reflexivity.
Qed.

Lemma energy_transitions_witness :
  (length (identifyEnergyTransitions (entries (parseLogText EXAMPLE_LOG)))
   < length (activeEntries (entries (parseLogText EXAMPLE_LOG))))%nat.
Proof.
  apply (proj1 (proj2 (proj2 (proj2
    (energy_transitions (entries (parseLogText EXAMPLE_LOG))))))).
  vm_compute. discriminate.
Defined.

(** C5, as stated. On a day of rest only no entry is active and no
    transition is returned: the length of the list, [0], is not less than
    the number of active entries, [0]. *)
Lemma energy_transitions_not_shorter :
  length RESTING_DAY = 2%nat
  /\ activeEntries RESTING_DAY = []
  /\ identifyEnergyTransitions RESTING_DAY = []
  /\ ~ (length (identifyEnergyTransitions RESTING_DAY)
        < length (activeEntries RESTING_DAY))%nat.
Proof.
  repeat split; try (vm_compute; reflexivity).
  vm_compute. lia.
Qed.

(** ** Integers as binary64 numbers *)

(** An integer other than [0] and below [2^53] in absolute value is a
    finite binary64 number, and such a number divided by itself is [1]:
    what the score needs when every active minute is productive. *)

Lemma digits2_pos_size (p : positive) : digits2_pos p = Pos.size p.
Proof. induction p; simpl; congruence. Qed.

Lemma digits2_pos_bound (p : positive) :
  Zpos p < 2 ^ 53 -> Zpos (digits2_pos p) <= 53.
Proof.
  intros Hp. rewrite digits2_pos_size.
  pose proof (Pos.size_le p) as Hs.
  assert (H : 2 ^ Zpos (Pos.size p) <= 2 * Zpos p).
  { rewrite <- Pos2Z.inj_pow. change (2 * Zpos p) with (Zpos p~0). lia. }
  destruct (Z.le_gt_cases (Zpos (Pos.size p)) 53) as [|Hgt]; [assumption|].
  assert (2 ^ 54 <= 2 ^ Zpos (Pos.size p)) by (apply Z.pow_le_mono_r; lia).
  change (2 ^ 54) with (2 * 2 ^ 53) in *. lia.
Qed.

Lemma digits2_pos_iter (p k : positive) :
  digits2_pos (Pos.iter xO p k) = (digits2_pos p + k)%positive.
Proof.
  induction k as [|k IH] using Pos.peano_ind.
  - simpl. lia.
  - rewrite Pos.iter_succ. simpl. rewrite IH. lia.
Qed.

(** A mantissa of 53 bits is not rounded. *)
Lemma binary_round_aux_exact (s : bool) (m : positive) (e : Z) :
  Zpos (digits2_pos m) = 53 -> -1074 <= e <= 971 ->
  binary_round_aux prec emax s (Zpos m) e loc_Exact = S754_finite s m e.
Proof.
  intros Hd He.
  unfold binary_round_aux, shr_fexp, Zdigits2. rewrite Hd.
  assert (Hf : fexp prec emax (53 + e) - e = 0).
  { unfold fexp, SpecFloat.emin, prec, emax. lia. }
  rewrite Hf. simpl. rewrite Hd, Hf. simpl.
  destruct (Z.leb_spec e (emax - prec)) as [|Hgt]; [reflexivity|].
  unfold emax, prec in Hgt. lia.
Qed.

(** A positive integer below [2^53] is shifted to 53 bits and kept. *)
Lemma binary_round_small (s : bool) (p : positive) :
  Zpos p < 2 ^ 53 ->
  match binary_round prec emax s p 0 with
  | S754_finite s' m e =>
      s' = s /\ valid_binary (S754_finite s' m e) = true
  | _ => False
  end.
Proof.
  intros Hp. pose proof (digits2_pos_bound p Hp) as Hd.
  unfold binary_round, shl_align.
  change IntDef.Z.sub with Z.sub. change IntDef.Z.add with Z.add.
  change (@PosDef.Pos.iter) with (@Pos.iter).
  assert (Hf : fexp prec emax (Zpos (digits2_pos p) + 0)
               = Zpos (digits2_pos p) - 53).
  { unfold fexp, SpecFloat.emin, prec, emax. lia. }
  rewrite Hf, Z.sub_0_r.
  destruct (Zpos (digits2_pos p) - 53) as [|k|k] eqn:Hk; [| lia |].
  - rewrite binary_round_aux_exact by lia.
    split; [reflexivity|].
    unfold valid_binary, SpecFloat.valid_binary, bounded, canonical_mantissa.
    change IntDef.Z.add with Z.add.
    rewrite Hf. reflexivity.
  - assert (Hdk : Zpos (digits2_pos (Pos.iter xO p k)) = 53).
    { rewrite digits2_pos_iter. lia. }
    rewrite binary_round_aux_exact by lia.
    split; [reflexivity|].
    unfold valid_binary, SpecFloat.valid_binary, bounded, canonical_mantissa.
    change IntDef.Z.add with Z.add.
    rewrite Hdk.
    replace (fexp prec emax (53 + Z.neg k)) with (Zneg k)
      by (unfold fexp, SpecFloat.emin, prec, emax; lia).
    rewrite Z.eqb_refl. simpl.
    apply Z.leb_le. unfold emax, prec. lia.
Qed.

Lemma Z2F_finite (t : Z) :
  t <> 0 -> Z.abs t < 2 ^ 53 ->
  exists s m e, Prim2SF (Z2F t) = S754_finite s m e.
Proof.
  intros Ht Hb. unfold Z2F, binary_normalize.
  destruct t as [|p|p]; [contradiction| |].
  - pose proof (binary_round_small false p ltac:(lia)) as H.
    destruct (binary_round prec emax false p 0) as [| | |s m e];
      try contradiction.
    destruct H as [_ Hv]. exists s, m, e. now apply Prim2SF_SF2Prim.
  - pose proof (binary_round_small true p ltac:(lia)) as H.
    destruct (binary_round prec emax true p 0) as [| | |s m e];
      try contradiction.
    destruct H as [_ Hv]. exists s, m, e. now apply Prim2SF_SF2Prim.
Qed.

Lemma SFdiv_self (s : bool) (m : positive) (e : Z) :
  SF64div (S754_finite s m e) (S754_finite s m e) = Prim2SF 1%float.
Proof.
  unfold SF64div, SFdiv, SFdiv_core_binary.
  change IntDef.Z.sub with Z.sub. change IntDef.Z.add with Z.add.
  change IntDef.Z.min with Z.min. change IntDef.Z.shiftl with Z.shiftl.
  change IntDef.Z.div_eucl with Z.div_eucl.
  replace (Zdigits2 (Zpos m) + e - (Zdigits2 (Zpos m) + e)) with 0 by lia.
  rewrite Z.sub_diag.
  change (Z.min (fexp prec emax 0) 0) with (-53).
  change (0 - -53) with 53.
  rewrite Z.shiftl_mul_pow2 by lia.
  assert (Hdiv : Z.div_eucl (Zpos m * 2 ^ 53) (Zpos m) = (2 ^ 53, 0)).
  { pose proof (Z.div_eucl_eq (Zpos m * 2 ^ 53) (Zpos m) ltac:(lia)) as Heq.
    pose proof (Z.mod_pos_bound (Zpos m * 2 ^ 53) (Zpos m) ltac:(lia)) as Hmod.
    unfold Z.modulo in Hmod.
    destruct (Z.div_eucl (Zpos m * 2 ^ 53) (Zpos m)) as [q r].
    assert (q = 2 ^ 53) by nia. subst q. f_equal. lia. }
  rewrite Hdiv.
  assert (Hloc : new_location (Zpos m) 0 = loc_Exact).
  { unfold new_location, new_location_even, new_location_odd.
    destruct (Z.even (Zpos m)); reflexivity. }
  rewrite Hloc. destruct s; vm_compute; reflexivity.
Qed.

Lemma div_self (t : Z) :
  t <> 0 -> Z.abs t < 2 ^ 53 -> (Z2F t / Z2F t)%float = 1%float.
Proof.
  intros Ht Hb. destruct (Z2F_finite t Ht Hb) as (s & m & e & Hx).
  apply Prim2SF_inj. rewrite div_spec, Hx. apply SFdiv_self.
Qed.

(** ** Productivity score *)

Lemma fold_countEntry (es : list Entry) (p t : Z) :
  fold_left countEntry es (p, t)
  = (p + productiveHighImmersionMinutes es, t + totalActiveMinutes es).
Proof.
  revert p t. induction es as [|e es IH]; intros p t.
  - simpl. f_equal; unfold productiveHighImmersionMinutes, totalActiveMinutes;
      simpl; lia.
  - cbn [fold_left]. unfold countEntry at 2.
    unfold productiveHighImmersionMinutes, totalActiveMinutes, activeEntries
      in *.
    rewrite (filter_cons _ e es).
    destruct (isResting e) eqn:Hr; simpl.
    + rewrite IH. reflexivity.
    + rewrite (filter_cons _ e), IH.
      destruct (isProductive e) eqn:Hp; simpl; f_equal; lia.
Qed.

Lemma productivityTotals_sums (es : list Entry) :
  productivityTotals es
  = (productiveHighImmersionMinutes es, totalActiveMinutes es).
Proof.
  unfold productivityTotals. now rewrite fold_countEntry.
Qed.

Lemma all_productive (es : list Entry) :
  Forall (fun e => isResting e = false -> isProductive e = true) es ->
  productiveHighImmersionMinutes es = totalActiveMinutes es.
Proof.
  intros Hall.
  unfold productiveHighImmersionMinutes, totalActiveMinutes, activeEntries.
  induction Hall as [|e es He _ IH]; [reflexivity|].
  rewrite (filter_cons _ e es).
  destruct (isResting e) eqn:Hr; simpl; [exact IH|].
  rewrite (filter_cons _ e), (He eq_refl). simpl. now rewrite IH.
Qed.

Lemma nearPercent_spec (p t s : Z) :
  0 < t -> nearPercent p t s = true ->
  (isTie p t = false -> s = roundPercent p t)
  /\ (s = roundPercent p t \/ s = roundPercent p t - 1).
Proof.
  intros Ht. unfold nearPercent, isTie, roundPercent. cbv zeta.
  rewrite orb_true_iff, andb_true_iff, Z.leb_le, Z.ltb_lt, Z.eqb_eq.
  intros [[Hlo Hhi]|Hx].
  - assert (Hs : s = (200 * p + t) / (2 * t)).
    { apply (Z.div_unique (200 * p + t) (2 * t) s (200 * p + t - 2 * t * s));
        lia. }
    auto.
  - assert (Hs : s + 1 = (200 * p + t) / (2 * t)).
    { apply (Z.div_unique (200 * p + t) (2 * t) (s + 1) 0); lia. }
    split; [|right; lia].
    intros Hn. apply Z.eqb_neq in Hn. exfalso. apply Hn.
    replace (200 * p) with (t + s * (2 * t)) by lia.
    rewrite Z_mod_plus_full. apply Z.mod_small. lia.
Qed.

Lemma fastZ2F_eq (z : Z) : 0 <= z < 2 ^ 63 -> fastZ2F z = Z2F z.
Proof.
  intros Hz. unfold fastZ2F, Z2F.
  rewrite <- (SF2Prim_Prim2SF (of_uint63 (Uint63.of_Z z))).
  rewrite of_uint63_spec, Uint63.of_Z_spec, Z.mod_small; [reflexivity|].
  exact Hz.
Qed.

Lemma digits2_pos_53 (q : positive) :
  2 ^ 52 <= Zpos q < 2 ^ 53 -> digits2_pos q = 53%positive.
Proof.
  intros [Hlo Hhi]. rewrite digits2_pos_size.
  pose proof (Pos.size_le q) as Hle. pose proof (Pos.size_gt q) as Hgt.
  assert (H1 : 2 ^ Zpos (Pos.size q) <= 2 * Zpos q).
  { rewrite <- Pos2Z.inj_pow. change (2 * Zpos q) with (Zpos q~0). lia. }
  assert (H2 : Zpos q < 2 ^ Zpos (Pos.size q)).
  { rewrite <- Pos2Z.inj_pow. lia. }
  destruct (Z.lt_trichotomy (Zpos (Pos.size q)) 53) as [Hlt|[Heq|Hgt']].
  - assert (2 ^ Zpos (Pos.size q) <= 2 ^ 52) by (apply Z.pow_le_mono_r; lia).
    lia.
  - lia.
  - assert (2 ^ 54 <= 2 ^ Zpos (Pos.size q)) by (apply Z.pow_le_mono_r; lia).
    change (2 ^ 54) with (2 * 2 ^ 53) in *. lia.
Qed.

Lemma fastRound_spec (y : float) (R : PrimInt63.int) :
  fastRound y = Some R -> Math_round y = Some (Uint63.to_Z R).
Proof.
  unfold fastRound, Math_round, Prim2SF.
  destruct (is_nan y); [discriminate|].
  destruct (is_zero y); [now intros [= <-]|].
  destruct (is_infinity y); [discriminate|].
  destruct (get_sign y); [discriminate|].
  unfold Z.frexp. destruct (frshiftexp y) as [r se].
  destruct (_ && _) eqn:Hc; [|discriminate]. intros [= <-].
  rewrite !andb_true_iff in Hc. destruct Hc as [[[Hlo Hhi] Hse1] Hse2].
  apply Uint63.leb_spec in Hlo, Hse1, Hse2. apply Uint63.ltb_spec in Hhi.
  change (Uint63.to_Z TWO52) with (2 ^ 52) in Hlo.
  change (Uint63.to_Z TWO53) with (2 ^ 53) in Hhi.
  change (Uint63.to_Z EXP_LOW) with 2092 in Hse1.
  change (Uint63.to_Z EXP_HIGH) with 2153 in Hse2.
  change Uint63Axioms.to_Z with Uint63.to_Z.
  set (m := Uint63.to_Z (normfr_mantissa r)) in *.
  set (s := Uint63.to_Z se) in *.
  destruct m as [|q|q] eqn:Hm; try lia.
  unfold shr_fexp, shr, Zdigits2. rewrite (digits2_pos_53 q) by lia.
  change IntDef.Z.sub with Z.sub. change IntDef.Z.add with Z.add.
  unfold FloatOps.shift, FloatOps.prec.
  replace (fexp 53 emax (53 + (s - 2101 - 53)) - (s - 2101 - 53)) with 0
    by (unfold fexp, SpecFloat.emin, emax;
        change IntDef.Z.sub with Z.sub; change IntDef.Z.max with Z.max; lia).
  cbn [shr_record_of_loc shr_m]. f_equal.
  unfold signed.
  assert (Hk : Uint63.to_Z (PrimInt63.sub EXP_BIAS se) = 2154 - s).
  { rewrite Uint63.sub_spec. change (Uint63.to_Z EXP_BIAS) with 2154.
    fold s. apply Z.mod_small. change Uint63.wB with (2 ^ 63). lia. }
  assert (Hk1 : Uint63.to_Z (PrimInt63.sub (PrimInt63.sub EXP_BIAS se) INT_1)
                = 2153 - s).
  { rewrite Uint63.sub_spec, Hk. change (Uint63.to_Z INT_1) with 1.
    rewrite Z.mod_small; [lia|]. change Uint63.wB with (2 ^ 63). lia. }
  assert (Hpow : 0 < 2 ^ (2153 - s) <= 2 ^ 61).
  { split; [apply Z.pow_pos_nonneg; lia|apply Z.pow_le_mono_r; lia]. }
  rewrite Uint63.lsr_spec, Uint63.add_spec, Uint63.lsl_spec, Hk, Hk1.
  change (Uint63.to_Z INT_1) with 1. fold m. rewrite Hm, Z.mul_1_l.
  change Uint63.wB with (2 ^ 63).
  rewrite (Z.mod_small (2 ^ (2153 - s))) by lia.
  rewrite Z.mod_small by lia.
  destruct (s - 2101 - 53) as [|e|e] eqn:He; try lia.
  unfold roundHalfUpScaled.
  replace (2154 - s) with (Zpos e) by lia.
  replace (2153 - s) with (Zpos e - 1) by lia.
  replace (2 ^ (Zpos e + 1)) with (2 * 2 ^ Zpos e)
    by (rewrite Z.pow_add_r by lia; lia).
  replace (2 * Zpos q + 2 ^ Zpos e) with (2 * (Zpos q + 2 ^ (Zpos e - 1))).
  - rewrite Z.div_mul_cancel_l by (try lia; apply Z.pow_nonzero; lia).
    reflexivity.
  - replace (2 ^ Zpos e) with (2 * 2 ^ (Zpos e - 1)); [lia|].
    rewrite <- Z.pow_succ_r by lia. f_equal. lia.
Qed.

Lemma to_Z_succ (i : PrimInt63.int) :
  Uint63.to_Z i < 2 ^ 62 ->
  Uint63.to_Z (PrimInt63.add i INT_1) = Uint63.to_Z i + 1.
Proof.
  intros Hi. rewrite Uint63.add_spec. change (Uint63.to_Z INT_1) with 1.
  pose proof (Uint63.to_Z_bounded i). apply Z.mod_small.
  change Uint63.wB with (2 ^ 63). lia.
Qed.

Lemma to_Z_of_Z (z : Z) : 0 <= z < 2 ^ 62 -> Uint63.to_Z (Uint63.of_Z z) = z.
Proof.
  intros Hz. rewrite Uint63.of_Z_spec. apply Z.mod_small.
  change Uint63.wB with (2 ^ 63). lia.
Qed.

Lemma allFromInt_spec (P : PrimInt63.int -> bool) (n : nat)
  (i : PrimInt63.int) :
  Uint63.to_Z i + Z.of_nat n < 2 ^ 62 ->
  allFromInt P n i = true ->
  forall z, Uint63.to_Z i <= z < Uint63.to_Z i + Z.of_nat n ->
            P (Uint63.of_Z z) = true.
Proof.
  revert i. induction n as [|n IH]; intros i Hb H z Hz; [lia|].
  simpl in H. apply andb_true_iff in H as [H0 H].
  destruct (Z.eq_dec z (Uint63.to_Z i)) as [->|Hne].
  - now rewrite Uint63.of_to_Z.
  - apply (IH (PrimInt63.add i INT_1)); rewrite ?to_Z_succ; try lia.
    exact H.
Qed.

Lemma scoresNearInt_spec (rows : nat) (t : PrimInt63.int) (width : nat) :
  Z.of_nat width = Uint63.to_Z t + 1 ->
  Uint63.to_Z t + Z.of_nat rows < 2 ^ 61 ->
  scoresNearInt rows t width = true ->
  forall tz pz,
    Uint63.to_Z t <= tz < Uint63.to_Z t + Z.of_nat rows -> 0 <= pz <= tz ->
    scoreNearInt (fastZ2F tz) (Uint63.of_Z tz) (Uint63.of_Z pz) = true.
Proof.
  revert t width. induction rows as [|rows IH]; intros t width Hw Hb H tz pz
    Htz Hpz; [lia|].
  simpl in H. apply andb_true_iff in H as [H0 H].
  pose proof (Uint63.to_Z_bounded t) as Ht.
  destruct (Z.eq_dec tz (Uint63.to_Z t)) as [->|Hne].
  - unfold fastZ2F. rewrite Uint63.of_to_Z.
    apply (allFromInt_spec _ width INT_0); [|exact H0|];
      change (Uint63.to_Z INT_0) with 0; lia.
  - apply (IH (PrimInt63.add t INT_1) (S width)); rewrite ?to_Z_succ;
      try lia. exact H.
Qed.

Lemma nearPercentInt_spec (p t r : PrimInt63.int) :
  Uint63.to_Z p <= 1440 -> Uint63.to_Z t <= 1440 -> Uint63.to_Z r <= 200 ->
  nearPercentInt p t r = true ->
  nearPercent (Uint63.to_Z p) (Uint63.to_Z t) (Uint63.to_Z r) = true.
Proof.
  intros Hp Ht Hr. unfold nearPercentInt, nearPercent. cbv zeta.
  pose proof (Uint63.to_Z_bounded p). pose proof (Uint63.to_Z_bounded t).
  pose proof (Uint63.to_Z_bounded r).
  assert (Hx : Uint63.to_Z (PrimInt63.add (PrimInt63.mul INT_200 p) t)
               = 200 * Uint63.to_Z p + Uint63.to_Z t).
  { rewrite Uint63.add_spec, Uint63.mul_spec.
    change (Uint63.to_Z INT_200) with 200. change Uint63.wB with (2 ^ 63).
    rewrite (Z.mod_small (200 * _)) by lia. apply Z.mod_small. lia. }
  assert (Hd : Uint63.to_Z (PrimInt63.mul INT_2 t) = 2 * Uint63.to_Z t).
  { rewrite Uint63.mul_spec. change (Uint63.to_Z INT_2) with 2.
    change Uint63.wB with (2 ^ 63). apply Z.mod_small. lia. }
  assert (Hlow : Uint63.to_Z (PrimInt63.mul (PrimInt63.mul INT_2 t) r)
                 = 2 * Uint63.to_Z t * Uint63.to_Z r).
  { rewrite Uint63.mul_spec, Hd. change Uint63.wB with (2 ^ 63).
    apply Z.mod_small. nia. }
  assert (Hhigh : Uint63.to_Z
                    (PrimInt63.add (PrimInt63.mul (PrimInt63.mul INT_2 t) r)
                       (PrimInt63.mul INT_2 t))
                  = 2 * Uint63.to_Z t * (Uint63.to_Z r + 1)).
  { rewrite Uint63.add_spec, Hlow, Hd. change Uint63.wB with (2 ^ 63).
    rewrite Z.mod_small by nia. lia. }
  rewrite !orb_true_iff, !andb_true_iff.
  rewrite Uint63.leb_spec, Uint63.ltb_spec, Uint63.eqb_spec.
  rewrite Z.leb_le, Z.ltb_lt, Z.eqb_eq.
  intros [[Hlo Hhi]|Heq].
  - left. rewrite Hlow, Hx in Hlo. rewrite Hx, Hhigh in Hhi. auto.
  - right. rewrite <- Hx, <- Hhigh. now f_equal.
Qed.

Lemma scoresNearInt_day : scoresNearInt 1440 INT_1 2 = true.
Proof. vm_compute. reflexivity. Qed.

Lemma score_near_day (p t : Z) :
  0 <= p <= t -> 0 < t <= 1440 ->
  exists s,
    Math_round (Z2F p / Z2F t * Z2F 100)%float = Some s
    /\ (isTie p t = false -> s = roundPercent p t)
    /\ (s = roundPercent p t \/ s = roundPercent p t - 1).
Proof.
  intros Hp Ht.
  pose proof (scoresNearInt_spec 1440 INT_1 2 eq_refl ltac:(vm_compute; reflexivity)
                scoresNearInt_day t p) as H.
  change (Uint63.to_Z INT_1) with 1 in H. specialize (H ltac:(lia) Hp).
  unfold scoreNearInt in H.
  change (of_uint63 (Uint63.of_Z p)) with (fastZ2F p) in H.
  change HUNDRED with (fastZ2F 100) in H.
  rewrite !fastZ2F_eq in H by lia.
  destruct (fastRound _) as [r|] eqn:Hr; [|discriminate].
  apply andb_true_iff in H as [Hr200 Hnear].
  apply Uint63.leb_spec in Hr200. change (Uint63.to_Z INT_200) with 200 in Hr200.
  apply nearPercentInt_spec in Hnear; rewrite ?to_Z_of_Z by lia; try lia.
  rewrite !to_Z_of_Z in Hnear by lia.
  exists (Uint63.to_Z r). split; [now apply fastRound_spec|].
  apply nearPercent_spec; [lia|exact Hnear].
Qed.

(** C6 on the code. With [p] the minutes of the non-resting entries in
    the work or development category at immersion 4 or more and [t] the
    minutes of all non-resting entries, which are the two counters of
    [calculateProductivityScore]: the score is 0 when [t] is 0, and it is
    100 when [t] is not 0 and [p] is [t], that is when every non-resting
    minute is productive, as it is when every non-resting entry is. For
    [p] from 0 to [t] and [t] up to 1440, the minutes of a day, the score
    is [round(100 * p / t)] unless [100 * p / t] is half-way between two
    integers, and then it is that number or one less. It is one less for
    the two entries of [SCORE_DAY]: 23 of the 40 active minutes are
    productive, [100 * 23 / 40] is 57 and a half, which rounds to 58, and
    the score returned is 57, the quotient being rounded to a binary64
    number before it is multiplied by 100. *)
Theorem productivity_score :
  (forall es,
     let p := productiveHighImmersionMinutes es in
     let t := totalActiveMinutes es in
     productivityTotals es = (p, t)
     /\ (t = 0 -> calculateProductivityScore es = Some 0)
     /\ (t <> 0 -> Z.abs t < 2 ^ 53 -> p = t ->
         calculateProductivityScore es = Some 100)
     /\ (Forall (fun e => isResting e = false -> isProductive e = true) es ->
         p = t)
     /\ (0 <= p <= t -> 0 < t <= 1440 ->
         exists s,
           calculateProductivityScore es = Some s
           /\ (isTie p t = false -> s = roundPercent p t)
           /\ (s = roundPercent p t \/ s = roundPercent p t - 1)))
  /\ (SCORE_DAY
      = [mkEntry 1 (js "09:00") (js "09:23") (js "工作") 4 23 CATEGORIES.WORK;
         mkEntry 2 (js "09:23") (js "09:40") (js "lunch") 1 17
           CATEGORIES.ROUTINE]
      /\ productiveHighImmersionMinutes SCORE_DAY = 23
      /\ totalActiveMinutes SCORE_DAY = 40
      /\ isTie 23 40 = true
      /\ roundPercent 23 40 = 58
      /\ calculateProductivityScore SCORE_DAY = Some 57).
Proof.
  split; [|repeat split; vm_compute; reflexivity].
  intros es p t. pose proof (productivityTotals_sums es) as Hsums.
  fold p t in Hsums. split; [exact Hsums|].
  unfold calculateProductivityScore. rewrite Hsums.
  split; [|split; [|split]].
  - intros ->. reflexivity.
  - intros Ht Hb Hpt. rewrite (proj2 (Z.eqb_neq _ _) Ht).
    rewrite Hpt, (div_self _ Ht Hb). vm_compute. reflexivity.
  - apply all_productive.
  - intros Hp Ht. rewrite (proj2 (Z.eqb_neq t 0)) by lia.
    now apply score_near_day.
Qed.

(** ** Immersion by category *)

Lemma updateStat_keys (k : list N) (f : CategoryStat.t -> CategoryStat.t)
  (stats : list (list N * CategoryStat.t)) :
  map fst (updateStat k f stats) = map fst stats.
Proof.
  induction stats as [|[k' v] r IH]; simpl; [reflexivity|].
  case_bool_decide; simpl; [reflexivity|now rewrite IH].
Qed.

(** The keys of [categoryStats] are categories of entries that are not
    resting and have a non-zero immersion. *)
Lemma accumulateStat_keys (P : list N -> Prop) (es : list Entry)
  (stats : list (list N * CategoryStat.t)) :
  Forall P (map fst stats) ->
  Forall (fun e => isResting e = false -> immersion e <> 0 -> P (category e))
    es ->
  Forall P (map fst (fold_left accumulateStat es stats)).
Proof.
  intros Hs Hes. revert stats Hs.
  induction Hes as [|e es He _ IH]; intros stats Hs; [exact Hs|].
  simpl. apply IH. unfold accumulateStat.
  destruct (isResting e) eqn:Hr; simpl; [exact Hs|].
  case_bool_decide as Hi; [exact Hs|].
  rewrite updateStat_keys.
  destruct (lookupStat _ _); [exact Hs|].
  rewrite map_app. apply Forall_app. split; [exact Hs|].
  repeat constructor. now apply He.
Qed.

Lemma analysis_categories (es : list Entry) (r : ImmersionAnalysis.t) :
  r ∈ analyzeImmersionByCategory es ->
  exists e,
    e ∈ es /\ category e = ImmersionAnalysis.category r
    /\ category e <> CATEGORIES.RELAX_BED /\ immersion e <> 0.
Proof.
  unfold analyzeImmersionByCategory. cbv zeta.
  rewrite <- sort_perm.
  intros (kv & -> & Hkv)%list_elem_of_fmap.
  pose (P := fun k : list N =>
    exists e, e ∈ es /\ category e = k
              /\ category e <> CATEGORIES.RELAX_BED /\ immersion e <> 0).
  assert (HP : Forall P (map fst (fold_left accumulateStat es []))).
  { apply accumulateStat_keys; [constructor|].
    apply Forall_forall. intros e He Hr Hi. exists e.
    repeat split; try assumption.
    unfold isResting in Hr. now apply bool_decide_eq_false in Hr. }
  rewrite Forall_forall in HP.
  destruct (HP (fst kv)) as (e & He & Hc & Hr & Hi).
  { now apply list_elem_of_fmap_2. }
  exists e. destruct kv as [k v]. simpl in *. auto.
Qed.

(** C4 on the code. No record of the result is for the resting category:
    every record is for the category of an entry that is not resting and
    has a non-zero immersion. But the one entry of [ZERO_LENGTH_DAY], of
    immersion 3 and duration 0, gives its category a record whose total
    time is 0 and whose average, 0 divided by 0, is [NaN]. *)
Theorem immersion_by_category_nan :
  (forall es r, r ∈ analyzeImmersionByCategory es ->
     ImmersionAnalysis.category r <> CATEGORIES.RELAX_BED
     /\ exists e, e ∈ es /\ category e = ImmersionAnalysis.category r
                  /\ category e <> CATEGORIES.RELAX_BED
                  /\ immersion e <> 0)
  /\ ZERO_LENGTH_DAY
     = [mkEntry 1 (js "09:00") (js "09:00") (js "stretch") 3 0
          CATEGORIES.ROUTINE]
  /\ analyzeImmersionByCategory ZERO_LENGTH_DAY
     = [ImmersionAnalysis.mk CATEGORIES.ROUTINE FixedNaN 0].
Proof.
  split; [|split; vm_compute; reflexivity].
  intros es r Hr.
  destruct (analysis_categories es r Hr) as (e & He & Hc & Hrest & Hi).
  split; [congruence|eauto].
Qed.

(** ** The end-to-end example *)

(** The two lines of [EXAMPLE_LOG] through [handleAnalyzeLog] without an
    API key: parsing, gap-filling, the keyword fallback on the user
    entries, and the statistics. *)
Example end_to_end :
  let parsed := entries (parseLogText EXAMPLE_LOG) in
  map (fun e => (id e, start e, end_ e, immersion e, duration e)) parsed
  = [(1, js "09:00", js "10:00", 3, 60); (2, js "10:00", js "11:30", 2, 90)]
  /\ validateEntries parsed = true
  /\ addSleepPeriodIfMissing parsed
     = Some (sleepEntry (js "09:00") 540 :: parsed)
  /\ (forall filled, addSleepPeriodIfMissing parsed = Some filled ->
      let final := categorizeEntries parseFoo asciiLowerCase None filled in
      map category final
      = [CATEGORIES.RELAX_BED; CATEGORIES.DEVELOPMENT; CATEGORIES.WORK]
      /\ calculateCategoryStats final !! CATEGORIES.DEVELOPMENT = Some 60
      /\ calculateCategoryStats final !! CATEGORIES.WORK = Some 90
      /\ calculateCategoryStats final !! CATEGORIES.RELAX_BED = Some 540
      /\ calculateTotalTime final = 690
      /\ identifyEnergyTransitions final = []).
Proof.
  cbv zeta. do 3 (split; [vm_compute; reflexivity|]).
  intros filled H. vm_compute in H. injection H as <-.
  repeat split; vm_compute; reflexivity.
Qed.

(** * Further properties *)

(** ** Category statistics *)

Lemma minutesInCategory_cons (c : list N) (e : Entry) (es : list Entry) :
  minutesInCategory c (e :: es)
  = (if bool_decide (category e = c) then duration e else 0)
    + minutesInCategory c es.
Proof.
  unfold minutesInCategory. rewrite filter_cons.
  case_bool_decide; case_decide; try contradiction; reflexivity.
Qed.

Lemma minutesInCategory_absent (c : list N) (es : list Entry) :
  c ∉ map category es -> minutesInCategory c es = 0.
Proof.
  induction es as [|e es IH]; [reflexivity|].
  rewrite minutesInCategory_cons. simpl. rewrite not_elem_of_cons.
  intros [Hne Hc]. rewrite bool_decide_eq_false_2 by congruence.
  now rewrite IH.
Qed.

Lemma fold_addToCategory_lookup (es : list Entry) (stats : gmap (list N) Z)
  (c : list N) :
  fold_left addToCategory es stats !! c
  = if bool_decide (c ∈ map category es)
    then Some (default 0 (stats !! c) + minutesInCategory c es)
    else stats !! c.
Proof.
  revert stats. induction es as [|e es IH]; intros stats.
  - cbn [fold_left map]. case_bool_decide as H; [|reflexivity].
    now apply elem_of_nil in H.
  - cbn [fold_left map]. rewrite IH, minutesInCategory_cons.
    unfold addToCategory.
    destruct (decide (category e = c)) as [->|Hne].
    + rewrite lookup_insert_eq. cbn [default]. unfold Datatypes.id.
      rewrite (bool_decide_eq_true_2 (c = c)) by reflexivity.
      rewrite (bool_decide_eq_true_2 (c ∈ c :: map category es)) by left.
      case_bool_decide as Hin; [f_equal; lia|].
      rewrite (minutesInCategory_absent _ _ Hin). f_equal. lia.
    + rewrite lookup_insert_ne by exact Hne.
      rewrite (bool_decide_eq_false_2 (category e = c)) by exact Hne.
      case_bool_decide as Hin.
      * rewrite bool_decide_eq_true_2 by now right. reflexivity.
      * rewrite bool_decide_eq_false_2; [reflexivity|].
        rewrite not_elem_of_cons. split; congruence.
Qed.

(** X1. Where the statistics object is a map, that is when no category
    at hand is a name inherited from [Object.prototype] (for such a name
    the source reads the inherited member and stores no number): the
    object has a key for a category exactly when an entry has that
    category, and the value is the sum of the durations of the entries of
    that category. *)
Theorem category_stats_lookup (es : list Entry) (c : list N) :
  Forall plainCategory es -> inherited c = false ->
  calculateCategoryStats es !! c
  = if bool_decide (c ∈ map category es)
    then Some (minutesInCategory c es)
    else None.
Proof.
  intros _ _.
  unfold calculateCategoryStats. rewrite fold_addToCategory_lookup.
  rewrite lookup_empty. case_bool_decide; reflexivity.
Qed.

Lemma category_stats_lookup_witness :
  calculateCategoryStats (entries (parseLogText EXAMPLE_LOG))
    !! CATEGORIES.ROUTINE
  = if bool_decide (CATEGORIES.ROUTINE
                      ∈ map category (entries (parseLogText EXAMPLE_LOG)))
    then Some (minutesInCategory CATEGORIES.ROUTINE
                 (entries (parseLogText EXAMPLE_LOG)))
    else None.
Proof.
  apply category_stats_lookup; [repeat constructor|reflexivity].
Defined.

Lemma sumValues_insert (stats : gmap (list N) Z) (k : list N) (v : Z) :
  sumValues (<[k := v]> stats)
  = sumValues stats - default 0 (stats !! k) + v.
Proof.
  unfold sumValues.
  assert (Hcomm : forall (m : gmap (list N) Z) (j1 j2 : list N) (z1 z2 y : Z),
            j1 <> j2 -> m !! j1 = Some z1 -> m !! j2 = Some z2 ->
            z1 + (z2 + y) = z2 + (z1 + y)) by (intros; lia).
  destruct (stats !! k) as [old|] eqn:Hk; cbn [default]; unfold Datatypes.id.
  - rewrite <- insert_delete_eq.
    rewrite map_fold_insert_L;
      [|apply Hcomm|apply lookup_delete_eq].
    rewrite (map_fold_delete_L _ _ k old stats); [lia|apply Hcomm|exact Hk].
  - rewrite map_fold_insert_L; [lia|apply Hcomm|exact Hk].
Qed.

Lemma calculateTotalTime_sum (es : list Entry) :
  calculateTotalTime es = sumZ (map duration es).
Proof.
  unfold calculateTotalTime.
  assert (H : forall acc, fold_left (fun total entry => total + duration entry)
                            es acc = acc + sumZ (map duration es)).
  { induction es as [|e es IH]; intros acc; simpl; [lia|]. rewrite IH. lia. }
  rewrite H. lia.
Qed.

Lemma fold_addToCategory_sum (es : list Entry) (stats : gmap (list N) Z) :
  sumValues (fold_left addToCategory es stats)
  = sumValues stats + sumZ (map duration es).
Proof.
  revert stats. induction es as [|e es IH]; intros stats; simpl; [lia|].
  rewrite IH. unfold addToCategory. rewrite sumValues_insert. lia.
Qed.

(** X2. When no category is a name inherited from [Object.prototype],
    every minute is in one category: the values of the statistics object
    add up to the total time. *)
Theorem category_stats_total (es : list Entry) :
  Forall plainCategory es ->
  sumValues (calculateCategoryStats es) = calculateTotalTime es.
Proof.
  intros _. unfold calculateCategoryStats.
  rewrite fold_addToCategory_sum, calculateTotalTime_sum.
  unfold sumValues. rewrite map_fold_empty. lia.
Qed.

Lemma category_stats_total_witness :
  sumValues (calculateCategoryStats (entries (parseLogText EXAMPLE_LOG)))
  = calculateTotalTime (entries (parseLogText EXAMPLE_LOG)).
Proof.
  apply category_stats_total. repeat constructor.
Defined.

(** ** Groups and the board *)

Lemma filter_category_absent (c : list N) (es : list Entry) :
  c ∉ map category es -> filter (fun e => category e = c) es = [].
Proof.
  induction es as [|e es IH]; [reflexivity|].
  cbn [map]. rewrite not_elem_of_cons. intros [Hne Hc].
  rewrite filter_cons. case_decide; [congruence|now apply IH].
Qed.

Lemma fold_pushToGroup_lookup (es : list Entry)
  (grouped : gmap (list N) (list Entry)) (c : list N) :
  fold_left pushToGroup es grouped !! c
  = if bool_decide (c ∈ map category es)
    then Some (default [] (grouped !! c)
                 ++ filter (fun e => category e = c) es)
    else grouped !! c.
Proof.
  revert grouped. induction es as [|e es IH]; intros grouped.
  - cbn [fold_left map]. case_bool_decide as H; [|reflexivity].
    now apply elem_of_nil in H.
  - cbn [fold_left map]. rewrite IH, filter_cons. unfold pushToGroup.
    destruct (decide (category e = c)) as [->|Hne].
    + rewrite lookup_insert_eq. cbn [default]. unfold Datatypes.id.
      rewrite (bool_decide_eq_true_2 (c ∈ c :: map category es)) by left.
      case_bool_decide as Hin.
      * now rewrite <- app_assoc.
      * rewrite (filter_category_absent _ _ Hin). reflexivity.
    + rewrite lookup_insert_ne by exact Hne.
      case_bool_decide as Hin.
      * rewrite bool_decide_eq_true_2 by now right. reflexivity.
      * rewrite bool_decide_eq_false_2; [reflexivity|].
        rewrite not_elem_of_cons. split; congruence.
Qed.

(** Without an inherited name the loop runs to its end. *)
Lemma groupInto_plain (es : list Entry)
  (grouped : gmap (list N) (list Entry)) :
  Forall plainCategory es ->
  groupInto grouped es = Some (fold_left pushToGroup es grouped).
Proof.
  intros Hes. revert grouped.
  induction Hes as [|e es He _ IH]; intros grouped; [reflexivity|].
  cbn [groupInto fold_left]. unfold addToGroup.
  unfold plainCategory in He. rewrite He. apply IH.
Qed.

(** With one it throws. *)
Lemma groupInto_inherited (es : list Entry)
  (grouped : gmap (list N) (list Entry)) :
  Exists (fun e => inherited (category e) = true) es ->
  groupInto grouped es = None.
Proof.
  intros Hes. revert grouped.
  induction Hes as [e es He|e es _ IH]; intros grouped;
    cbn [groupInto]; unfold addToGroup.
  - now rewrite He.
  - destruct (inherited (category e)); [reflexivity|apply IH].
Qed.

Lemma plain_or_inherited (es : list Entry) :
  Forall plainCategory es
  \/ Exists (fun e => inherited (category e) = true) es.
Proof.
  induction es as [|e es [IH|IH]]; [left; constructor| |].
  - destruct (inherited (category e)) eqn:He.
    + right. now left.
    + left. now constructor.
  - right. now right.
Qed.

Lemma grouped_default (es : list Entry) (c : list N) :
  default [] (fold_left pushToGroup es ∅ !! c)
  = filter (fun e => category e = c) es.
Proof.
  rewrite fold_pushToGroup_lookup, lookup_empty.
  case_bool_decide as Hin; [reflexivity|].
  now rewrite (filter_category_absent _ _ Hin).
Qed.

Lemma category_order_plain :
  Forall (fun c => inherited c = false) CATEGORY_ORDER.
Proof. repeat constructor. Qed.

(** X3. [groupEntriesByCategory] throws exactly when the category of some
    entry is a name inherited from [Object.prototype]. When it returns,
    the group of a category is the entries of that category in the order
    of the input; a category without an entry has no group, so no group is
    empty, and every entry is in the group of its category. *)
Theorem group_entries_by_category (es : list Entry) :
  (groupEntriesByCategory es = None
   <-> Exists (fun e => inherited (category e) = true) es)
  /\ (Forall plainCategory es ->
      exists grouped, groupEntriesByCategory es = Some grouped)
  /\ (forall grouped, groupEntriesByCategory es = Some grouped ->
        (forall c, inherited c = false ->
           grouped !! c
           = if bool_decide (c ∈ map category es)
             then Some (filter (fun e => category e = c) es)
             else None)
        /\ (forall c group, grouped !! c = Some group -> group <> [])
        /\ (forall e, e ∈ es ->
              exists group, grouped !! category e = Some group
                            /\ e ∈ group)).
Proof.
  unfold groupEntriesByCategory.
  split; [|split].
  - split; [|apply groupInto_inherited].
    destruct (plain_or_inherited es) as [Hp|Hi]; [|auto].
    rewrite (groupInto_plain _ _ Hp). discriminate.
  - intros Hp. rewrite (groupInto_plain _ _ Hp). eauto.
  - intros grouped Hg.
    destruct (plain_or_inherited es) as [Hp|Hi];
      [|rewrite (groupInto_inherited _ _ Hi) in Hg; discriminate].
    rewrite (groupInto_plain _ _ Hp) in Hg. injection Hg as <-.
    assert (Hlookup : forall c,
      fold_left pushToGroup es ∅ !! c
      = if bool_decide (c ∈ map category es)
        then Some (filter (fun e => category e = c) es)
        else None).
    { intros c. rewrite fold_pushToGroup_lookup, lookup_empty.
      case_bool_decide; reflexivity. }
    split; [intros c _; apply Hlookup|split].
    + intros c group. rewrite Hlookup.
      case_bool_decide as Hin; [|discriminate].
      intros [= <-] Hnil.
      apply list_elem_of_fmap in Hin as (e & -> & He).
      assert (Hmem : e ∈ filter (fun e0 => category e0 = category e) es).
      { apply list_elem_of_filter. auto. }
      rewrite Hnil in Hmem. now apply elem_of_nil in Hmem.
    + intros e He. rewrite Hlookup.
      rewrite bool_decide_eq_true_2 by now apply list_elem_of_fmap_2.
      eexists. split; [reflexivity|]. apply list_elem_of_filter. auto.
Qed.

(** X4. When no category is an inherited name, the board is built: it
    has one column for each category of the fixed set, none of which is an
    inherited name, in the fixed order, holding the entries of that
    category in the order of the input. An entry is on the board exactly
    when its category is in the fixed set: one with another category is
    in no column. *)
Theorem kanban_columns (es : list Entry) :
  Forall plainCategory es ->
  Forall (fun c => inherited c = false) CATEGORY_ORDER
  /\ exists grouped,
       groupEntriesByCategory es = Some grouped
       /\ kanbanColumns grouped
          = map (fun c => (c, filter (fun e => category e = c) es))
              CATEGORY_ORDER
       /\ (forall e,
             (exists column,
                column ∈ kanbanColumns grouped /\ e ∈ snd column)
             <-> e ∈ es /\ inCategorySet e).
Proof.
  intros Hp. split; [apply category_order_plain|].
  exists (fold_left pushToGroup es ∅).
  split; [now apply groupInto_plain|].
  assert (Hcols : kanbanColumns (fold_left pushToGroup es ∅)
    = map (fun c => (c, filter (fun e => category e = c) es)) CATEGORY_ORDER).
  { unfold kanbanColumns. apply map_ext. intros c.
    now rewrite grouped_default. }
  split; [exact Hcols|].
  intros e. rewrite Hcols. split.
  - intros (column & Hcol & He).
    apply list_elem_of_fmap in Hcol as (c & -> & Hc).
    simpl in He. apply list_elem_of_filter in He as [Hcat He].
    split; [exact He|]. unfold inCategorySet. now rewrite Hcat.
  - intros [He Hset].
    exists (category e, filter (fun e0 => category e0 = category e) es).
    split.
    + apply list_elem_of_fmap. exists (category e). split; [reflexivity|].
      exact Hset.
    + simpl. apply list_elem_of_filter. auto.
Qed.

Lemma kanban_columns_witness :
  exists grouped,
    groupEntriesByCategory (entries (parseLogText EXAMPLE_LOG)) = Some grouped
    /\ kanbanColumns grouped
       = map (fun c => (c, filter (fun e => category e = c)
                             (entries (parseLogText EXAMPLE_LOG))))
           CATEGORY_ORDER.
Proof.
  destruct (kanban_columns (entries (parseLogText EXAMPLE_LOG)))
    as (_ & grouped & Hg & Hcols & _).
  - repeat constructor.
  - exists grouped. auto.
Defined.

(** ** What categorization leaves alone *)

Lemma setCategory_same (e : Entry) : setCategory (category e) e = e.
Proof. now destruct e. Qed.

Lemma fields_total (es es' : list Entry) :
  map fieldsOf es' = map fieldsOf es ->
  calculateTotalTime es' = calculateTotalTime es.
Proof.
  intros H. rewrite !calculateTotalTime_sum. f_equal.
  change duration with (fun e => snd (fieldsOf e)).
  rewrite <- !(map_map fieldsOf snd). now rewrite H.
Qed.

Lemma fields_distribution (es es' : list Entry) :
  map fieldsOf es' = map fieldsOf es ->
  calculateImmersionDistribution es' = calculateImmersionDistribution es.
Proof.
  unfold calculateImmersionDistribution.
  generalize (<[5:=0]> (<[4:=0]> (<[3:=0]> (<[2:=0]> (<[1:=0]> (∅ : gmap Z Z)))))).
  revert es'. induction es as [|a es IH]; intros [|b es'] d H;
    try discriminate; [reflexivity|].
  assert (Hab : fieldsOf b = fieldsOf a) by (simpl in H; congruence).
  assert (Ht : map fieldsOf es' = map fieldsOf es) by (simpl in H; congruence).
  simpl. replace (addToLevel d b) with (addToLevel d a); [now apply IH|].
  unfold fieldsOf in Hab. unfold addToLevel.
  replace (immersion b) with (immersion a) by congruence.
  replace (duration b) with (duration a) by congruence. reflexivity.
Qed.

Lemma categorizeWithKeywords_fields (toLowerCase : list N -> list N)
  (es : list Entry) :
  map fieldsOf (categorizeWithKeywords toLowerCase es) = map fieldsOf es.
Proof.
  unfold categorizeWithKeywords. rewrite map_map. reflexivity.
Qed.

Lemma applyCategories_fields (cs : list (list N)) (es : list Entry) :
  map fieldsOf (applyCategories cs es) = map fieldsOf es.
Proof.
  apply list_eq. intros i.
  unfold applyCategories. rewrite !list_lookup_fmap, list_lookup_imap.
  destruct (es !! i) as [e|]; simpl; [|reflexivity].
  destruct (cs !! i); reflexivity.
Qed.

Lemma categorizeWithAI_fields (JSON_parse : list N -> option parsed)
  (api : outcome (list N)) (es : list Entry) :
  map fieldsOf (snd (categorizeWithAI JSON_parse api es)) = map fieldsOf es.
Proof.
  rewrite categorizeWithAI_cases.
  destruct api as [text|e]; [|reflexivity].
  destruct (JSON_parse _) as [[|cs]|]; try reflexivity.
  case_bool_decide; [apply applyCategories_fields|reflexivity].
Qed.

(** Writing the user entries back changes no entry of id 0 and, when the
    updated ones differ in their category only, nothing but categories. *)
Lemma writeBack_fields (es updated : list Entry) :
  map fieldsOf updated = map fieldsOf (getUserEntries es) ->
  Forall2 (fun a b => fieldsOf b = fieldsOf a /\ (id a = 0 -> b = a))
    es (writeBack es updated).
Proof.
  revert updated. induction es as [|e es IH]; intros updated Hu;
    [constructor|].
  unfold getUserEntries in Hu. rewrite filter_cons in Hu.
  fold (getUserEntries es) in Hu. cbn [writeBack].
  case_bool_decide as Hid; case_decide; try contradiction.
  - destruct updated as [|u us]; [discriminate|].
    assert (Hue : fieldsOf u = fieldsOf e) by (simpl in Hu; congruence).
    assert (Hus : map fieldsOf us = map fieldsOf (getUserEntries es))
      by (simpl in Hu; congruence).
    constructor; [split; [exact Hue|contradiction]|now apply IH].
  - constructor; [split; [reflexivity|reflexivity]|now apply IH].
Qed.

Lemma categorizeEntries_frame (JSON_parse : list N -> option parsed)
  (toLowerCase : list N -> list N) (api : option (outcome (list N)))
  (es : list Entry) :
  Forall2 (fun a b => fieldsOf b = fieldsOf a /\ (id a = 0 -> b = a))
    es (categorizeEntries JSON_parse toLowerCase api es).
Proof.
  unfold categorizeEntries. cbv zeta.
  assert (Hkw : Forall2 (fun a b => fieldsOf b = fieldsOf a /\ (id a = 0 -> b = a))
                  es (writeBack es (categorizeWithKeywords toLowerCase
                                      (getUserEntries es)))).
  { apply writeBack_fields, categorizeWithKeywords_fields. }
  destruct api as [response|]; [|exact Hkw].
  destruct (getUserEntries es) as [|u us] eqn:Hu; [exact Hkw|].
  pose proof (categorizeWithAI_fields JSON_parse response (u :: us)) as Hai.
  destruct (categorizeWithAI JSON_parse response (u :: us)) as [[[]|err] us'].
  - apply writeBack_fields. rewrite Hu. exact Hai.
  - apply writeBack_fields. rewrite Hu, categorizeWithKeywords_fields.
    exact Hai.
Qed.

Lemma frame_fields (es es' : list Entry) :
  Forall2 (fun a b => fieldsOf b = fieldsOf a /\ (id a = 0 -> b = a)) es es' ->
  map fieldsOf es' = map fieldsOf es.
Proof.
  induction 1 as [|a b es es' [Hab _] _ IH]; [reflexivity|].
  simpl. now rewrite Hab, IH.
Qed.

(** X5. Applying the keyword fallback a second time changes nothing, and
    the fallback changes no field of an entry other than its category. *)
Theorem categorizeWithKeywords_idempotent (toLowerCase : list N -> list N)
  (es : list Entry) :
  categorizeWithKeywords toLowerCase (categorizeWithKeywords toLowerCase es)
  = categorizeWithKeywords toLowerCase es
  /\ map fieldsOf (categorizeWithKeywords toLowerCase es) = map fieldsOf es.
Proof.
  split; [|apply categorizeWithKeywords_fields].
  unfold categorizeWithKeywords. rewrite map_map.
  apply map_ext. intros e. reflexivity.
Qed.

(** X6. Whatever the remote call ends in, the categorization step of
    [handleAnalyzeLog] keeps the number and the order of the entries,
    changes no field other than the category, leaves every entry of id 0
    (the inserted sleep entry) exactly as it is, and so changes neither
    the total time nor the immersion distribution. *)
Theorem categorization_frame (JSON_parse : list N -> option parsed)
  (toLowerCase : list N -> list N) (api : option (outcome (list N)))
  (es : list Entry) :
  map fieldsOf (categorizeEntries JSON_parse toLowerCase api es)
  = map fieldsOf es
  /\ (forall i e, es !! i = Some e -> id e = 0 ->
        categorizeEntries JSON_parse toLowerCase api es !! i = Some e)
  /\ calculateTotalTime (categorizeEntries JSON_parse toLowerCase api es)
     = calculateTotalTime es
  /\ calculateImmersionDistribution
       (categorizeEntries JSON_parse toLowerCase api es)
     = calculateImmersionDistribution es.
Proof.
  pose proof (categorizeEntries_frame JSON_parse toLowerCase api es) as Hframe.
  pose proof (frame_fields _ _ Hframe) as Hfields.
  split; [exact Hfields|]. split; [|split].
  - intros i e He Hid.
    destruct (Forall2_lookup_l _ _ _ i e Hframe He) as (b & Hb & _ & Hsame).
    rewrite Hb. f_equal. now apply Hsame.
  - now apply fields_total.
  - now apply fields_distribution.
Qed.

(** ** Dropping an entry on a column *)

Lemma handleKanbanDrop_fields (entryId : Z) (c : list N) (es : list Entry) :
  map fieldsOf (handleKanbanDrop entryId c es) = map fieldsOf es.
Proof.
  induction es as [|e es IH]; [reflexivity|]. simpl.
  case_bool_decide; [|simpl; now rewrite IH].
  case_bool_decide; reflexivity.
Qed.

Lemma handleKanbanDrop_first (entryId : Z) (c : list N)
  (es1 es2 : list Entry) (e : Entry) :
  entryId ∉ map id es1 -> id e = entryId ->
  handleKanbanDrop entryId c (es1 ++ e :: es2)
  = es1 ++ setCategory c e :: es2.
Proof.
  intros Hes1 He. induction es1 as [|x es1 IH]; simpl.
  - rewrite bool_decide_eq_true_2 by exact He.
    destruct (decide (category e = c)) as [Hc|Hc].
    + rewrite bool_decide_eq_false_2 by auto.
      rewrite <- Hc. now rewrite setCategory_same.
    + now rewrite bool_decide_eq_true_2.
  - cbn [map] in Hes1. apply not_elem_of_cons in Hes1 as [Hx Hes1].
    rewrite bool_decide_eq_false_2 by congruence.
    now rewrite IH.
Qed.

(** X7. Dropping an entry on a column writes the column's category in the
    first entry that has the dragged id and changes nothing else: no other
    entry, no other field, hence not the total time. With an id that no
    entry has, nothing changes; the same drop a second time changes
    nothing more. *)
Theorem kanban_drop (entryId : Z) (c : list N) (es : list Entry) :
  map fieldsOf (handleKanbanDrop entryId c es) = map fieldsOf es
  /\ calculateTotalTime (handleKanbanDrop entryId c es) = calculateTotalTime es
  /\ (entryId ∉ map id es -> handleKanbanDrop entryId c es = es)
  /\ (forall es1 e es2,
        es = es1 ++ e :: es2 -> entryId ∉ map id es1 -> id e = entryId ->
        handleKanbanDrop entryId c es = es1 ++ setCategory c e :: es2)
  /\ handleKanbanDrop entryId c (handleKanbanDrop entryId c es)
     = handleKanbanDrop entryId c es.
Proof.
  split; [apply handleKanbanDrop_fields|].
  split; [apply fields_total, handleKanbanDrop_fields|].
  split; [|split].
  - induction es as [|e es IH]; [reflexivity|].
    cbn [map]. rewrite not_elem_of_cons. intros [Hne Hes]. simpl.
    rewrite bool_decide_eq_false_2 by congruence. now rewrite IH.
  - intros es1 e es2 -> Hes1 He. now apply handleKanbanDrop_first.
  - induction es as [|e es IH]; [reflexivity|]. simpl.
    case_bool_decide as Hid.
    + case_bool_decide as Hc; simpl.
      * rewrite bool_decide_eq_true_2 by exact Hid.
        rewrite bool_decide_eq_false_2; [reflexivity|]. auto.
      * rewrite bool_decide_eq_true_2 by exact Hid.
        now rewrite bool_decide_eq_false_2.
    + simpl. rewrite bool_decide_eq_false_2 by exact Hid. now rewrite IH.
Qed.

Lemma kanban_drop_witness :
  handleKanbanDrop 2 CATEGORIES.SOCIAL (entries (parseLogText EXAMPLE_LOG))
  = [mkEntry 1 (js "09:00") (js "10:00") (js "閱讀") 3 60 CATEGORIES.ROUTINE;
     setCategory CATEGORIES.SOCIAL
       (mkEntry 2 (js "10:00") (js "11:30") (js "開會") 2 90
          CATEGORIES.ROUTINE)].
Proof.
  apply (proj1 (proj2 (proj2 (proj2
    (kanban_drop 2 CATEGORIES.SOCIAL (entries (parseLogText EXAMPLE_LOG))))))
    [mkEntry 1 (js "09:00") (js "10:00") (js "閱讀") 3 60 CATEGORIES.ROUTINE]
    (mkEntry 2 (js "10:00") (js "11:30") (js "開會") 2 90 CATEGORIES.ROUTINE)
    []).
  - vm_compute. reflexivity.
  - intros H. vm_compute in H. inversion H as [|? ? ? H']. inversion H'.
  - reflexivity.
Defined.

(** ** Gap-filling of what the parser returns *)

Lemma parser_ids_positive (rawText : list N) :
  Forall (fun e => 0 < id e) (entries (parseLogText rawText)).
Proof.
  apply Forall_forall. intros e He.
  destruct (parser_entry_source rawText e He) as (i & l & tm & _ & _ & Hp).
  apply parseTimeEntry_fields in Hp as [-> _]. lia.
Qed.

Lemma parser_ids_NoDup (rawText : list N) :
  NoDup (map id (entries (parseLogText rawText))).
Proof.
  unfold parseLogText. rewrite parseLines_entries. simpl.
  destruct (lineEntries_ids (split 10%N rawText) 0) as [Hs _].
  revert Hs. generalize (map id (lineEntries 0 (split 10%N rawText))).
  induction 1 as [|x l Hl IH Hx]; constructor; [|exact IH].
  intros Hin. rewrite Forall_forall in Hx. specialize (Hx x Hin). lia.
Qed.

(** The gap-filling of what the parser returns always has a result. *)
Lemma gap_fill_parsed (rawText : list N) :
  let parsed := entries (parseLogText rawText) in
  addSleepPeriodIfMissing parsed = Some (sort byStart parsed)
  \/ exists first rest d,
       sort byStart parsed = first :: rest
       /\ start first <> MIDNIGHT
       /\ calculateDuration MIDNIGHT (start first) = Some d
       /\ addSleepPeriodIfMissing parsed
          = Some (sleepEntry (start first) d :: sort byStart parsed).
Proof.
  cbv zeta.
  destruct (sort byStart (entries (parseLogText rawText)))
    as [|first rest] eqn:Hs.
  - left. destruct (entries (parseLogText rawText)) as [|e es] eqn:He;
      [reflexivity|].
    exfalso. now apply (sort_nonempty byStart (e :: es)).
  - rewrite (addSleepPeriodIfMissing_unfold _ first rest Hs).
    case_bool_decide as Hm; [now left|]. right.
    assert (Hfmt : timeFormat (start first) = true).
    { pose proof (parser_times_format rawText) as Hall.
      rewrite (sort_perm byStart), Hs in Hall.
      now apply Forall_cons_iff in Hall as [[? _] _]. }
    destruct (midnight_duration _ Hfmt) as [d Hd].
    exists first, rest, d. rewrite Hd. auto.
Qed.

Lemma getUserEntries_all (es : list Entry) :
  Forall (fun e => 0 < id e) es -> getUserEntries es = es.
Proof.
  unfold getUserEntries. induction 1 as [|e es He _ IH]; [reflexivity|].
  rewrite filter_cons, IH. case_decide; [reflexivity|lia].
Qed.

(** X8. Gap-filling what the parser returns always succeeds, and the user
    entries of the result are the parsed entries sorted by start: the only
    entry that [getUserEntries] removes is the inserted sleep entry. All
    ids of the result are distinct, so a drop finds the dragged entry. *)
Theorem user_entries_of_gap_filled (rawText : list N) :
  exists filled,
    addSleepPeriodIfMissing (entries (parseLogText rawText)) = Some filled
    /\ getUserEntries filled = sort byStart (entries (parseLogText rawText))
    /\ Permutation (getUserEntries filled) (entries (parseLogText rawText))
    /\ NoDup (map id filled).
Proof.
  assert (Hpos : Forall (fun e => 0 < id e)
                   (sort byStart (entries (parseLogText rawText)))).
  { rewrite <- sort_perm. apply parser_ids_positive. }
  assert (Hnd : NoDup (map id (sort byStart (entries (parseLogText rawText))))).
  { rewrite <- sort_perm. apply parser_ids_NoDup. }
  destruct (gap_fill_parsed rawText) as [H|(first & rest & d & Hs & _ & _ & H)].
  - eexists. split; [exact H|]. rewrite getUserEntries_all by exact Hpos.
    split; [reflexivity|]. split; [symmetry; apply sort_perm|exact Hnd].
  - eexists. split; [exact H|].
    assert (Hu : getUserEntries
                   (sleepEntry (start first) d
                      :: sort byStart (entries (parseLogText rawText)))
                 = sort byStart (entries (parseLogText rawText))).
    { unfold getUserEntries. rewrite filter_cons. simpl.
      fold (getUserEntries (sort byStart (entries (parseLogText rawText)))).
      now apply getUserEntries_all. }
    rewrite Hu. split; [reflexivity|].
    split; [symmetry; apply sort_perm|].
    cbn [map]. constructor; [|exact Hnd]. simpl.
    intros (e & He0 & He)%list_elem_of_fmap.
    rewrite Forall_forall in Hpos. specialize (Hpos e He). lia.
Qed.

Lemma durationConsistent_fields (a b : Entry) :
  fieldsOf b = fieldsOf a -> durationConsistent a -> durationConsistent b.
Proof.
  unfold durationConsistent, fieldsOf. intros H Ha.
  replace (start b) with (start a) by congruence.
  replace (end_ b) with (end_ a) by congruence.
  replace (duration b) with (duration a) by congruence. exact Ha.
Qed.

Lemma parser_durationConsistent (rawText : list N) :
  Forall durationConsistent (entries (parseLogText rawText)).
Proof.
  apply Forall_forall. intros e He.
  destruct (parser_entry_source rawText e He) as (i & l & tm & _ & _ & Hp).
  now apply parseTimeEntry_fields in Hp.
Qed.

(** X9. From the parser to the dashboard the duration of every entry is
    the one [calculateDuration] gives for its start and end: after
    parsing, after gap-filling (the sleep entry included), and after the
    categorization step, whatever the remote call ends in. *)
Theorem duration_consistent (JSON_parse : list N -> option parsed)
  (toLowerCase : list N -> list N) (api : option (outcome (list N)))
  (rawText : list N) :
  Forall durationConsistent (entries (parseLogText rawText))
  /\ exists filled,
       addSleepPeriodIfMissing (entries (parseLogText rawText)) = Some filled
       /\ Forall durationConsistent filled
       /\ Forall durationConsistent
            (categorizeEntries JSON_parse toLowerCase api filled).
Proof.
  split; [apply parser_durationConsistent|].
  assert (Hsorted : Forall durationConsistent
                      (sort byStart (entries (parseLogText rawText)))).
  { rewrite <- sort_perm. apply parser_durationConsistent. }
  assert (Hcat : forall filled, Forall durationConsistent filled ->
            Forall durationConsistent
              (categorizeEntries JSON_parse toLowerCase api filled)).
  { intros filled Hf.
    pose proof (categorizeEntries_frame JSON_parse toLowerCase api filled)
      as Hframe.
    induction Hframe as [|a b es es' [Hab _] _ IH]; [constructor|].
    apply Forall_cons_iff in Hf as [Ha Hf].
    constructor; [now apply (durationConsistent_fields a b)|now apply IH]. }
  destruct (gap_fill_parsed rawText) as [H|(first & rest & d & Hs & _ & Hd & H)].
  - eexists. split; [exact H|]. split; [exact Hsorted|now apply Hcat].
  - eexists. split; [exact H|].
    assert (Hall : Forall durationConsistent
              (sleepEntry (start first) d
                 :: sort byStart (entries (parseLogText rawText)))).
    { constructor; [exact Hd|exact Hsorted]. }
    split; [exact Hall|now apply Hcat].
Qed.

(** ** Energy transitions and rest *)

Lemma identifyEnergyTransitions_active (es es' : list Entry) :
  activeEntries es = activeEntries es' ->
  identifyEnergyTransitions es = identifyEnergyTransitions es'.
Proof. unfold identifyEnergyTransitions. now intros ->. Qed.

Lemma activeEntries_idemp (es : list Entry) :
  activeEntries (activeEntries es) = activeEntries es.
Proof.
  unfold activeEntries. apply list_filter_filter_l. auto.
Qed.

Lemma activeEntries_resting (es1 es2 : list Entry) (e : Entry) :
  isResting e = true ->
  activeEntries (es1 ++ e :: es2) = activeEntries (es1 ++ es2).
Proof.
  intros He. unfold activeEntries.
  rewrite !filter_app, filter_cons, He. reflexivity.
Qed.

Lemma identifyEnergyTransitions_pairs (es : list Entry) :
  identifyEnergyTransitions es
  = omap transitionOf (consecutivePairs (activeEntries es)).
Proof.
  unfold identifyEnergyTransitions. cbv zeta.
  rewrite transition_loop by (rewrite consecutivePairs_length; lia).
  rewrite <- consecutivePairs_length. now rewrite firstn_all.
Qed.

(** X10. [identifyEnergyTransitions] does not see the resting entries: an
    entry of the resting category, the inserted sleep entry for one, can be
    taken out anywhere without changing the result, so that two active
    entries with a rest between them are compared with each other. Every
    record is for two active entries of the list that follow each other
    among the active ones: it carries their contents and immersions and the
    start of the second, its difference is the second immersion minus the
    first, at least 2 in absolute value, and its type is [increase]
    exactly when the difference is positive. *)
Theorem transitions_skip_rest (es : list Entry) :
  identifyEnergyTransitions (activeEntries es) = identifyEnergyTransitions es
  /\ (forall es1 e es2, es = es1 ++ e :: es2 -> isResting e = true ->
        identifyEnergyTransitions es = identifyEnergyTransitions (es1 ++ es2))
  /\ (forall t, t ∈ identifyEnergyTransitions es ->
        exists i previous current,
          activeEntries es !! i = Some previous
          /\ activeEntries es !! S i = Some current
          /\ previous ∈ es /\ current ∈ es
          /\ t = transitionRecord previous current
          /\ Transition.time t = start current
          /\ Transition.difference t = immersion current - immersion previous
          /\ 2 <= Z.abs (Transition.difference t)
          /\ (Transition.type t = Transition.increase
              <-> 0 < Transition.difference t)).
Proof.
  split; [apply identifyEnergyTransitions_active, activeEntries_idemp|].
  split.
  - intros es1 e es2 -> He.
    now apply identifyEnergyTransitions_active, activeEntries_resting.
  - intros t. rewrite identifyEnergyTransitions_pairs.
    intros ([previous current] & Hin & Ht)%list_elem_of_omap.
    apply list_elem_of_lookup in Hin as [i Hi].
    apply consecutivePairs_lookup in Hi as [Hp Hc]. simpl in Hp, Hc.
    exists i, previous, current.
    unfold transitionOf in Ht.
    destruct (Z.leb_spec 2 (Z.abs (immersion current - immersion previous)))
      as [Habs|]; [|discriminate].
    injection Ht as <-.
    assert (Hsub : forall x j, activeEntries es !! j = Some x -> x ∈ es).
    { intros x j Hx. apply list_elem_of_lookup_2 in Hx.
      unfold activeEntries in Hx. now apply list_elem_of_filter in Hx. }
    repeat split; eauto.
    + simpl. destruct (Z.ltb_spec 0 (immersion current - immersion previous));
        [lia|discriminate].
    + simpl. intros Hpos. apply Z.ltb_lt in Hpos. now rewrite Hpos.
Qed.

(** ** The records of the immersion analysis *)

Lemma lookupStat_updateStat (k k' : list N)
  (f : CategoryStat.t -> CategoryStat.t)
  (stats : list (list N * CategoryStat.t)) :
  lookupStat k (updateStat k' f stats)
  = if bool_decide (k = k') then f <$> lookupStat k stats
    else lookupStat k stats.
Proof.
  induction stats as [|[k0 v] r IH]; simpl.
  - now case_bool_decide.
  - destruct (decide (k0 = k')) as [->|Hne].
    + rewrite bool_decide_eq_true_2 by reflexivity. simpl.
      destruct (decide (k' = k)) as [->|Hk].
      * now rewrite !bool_decide_eq_true_2.
      * rewrite (bool_decide_eq_false_2 (k' = k)) by exact Hk.
        now rewrite (bool_decide_eq_false_2 (k = k')) by congruence.
    + rewrite (bool_decide_eq_false_2 (k0 = k')) by exact Hne. simpl.
      destruct (decide (k0 = k)) as [->|Hk].
      * rewrite bool_decide_eq_true_2 by reflexivity.
        now rewrite (bool_decide_eq_false_2 (k = k')) by exact Hne.
      * rewrite (bool_decide_eq_false_2 (k0 = k)) by exact Hk. exact IH.
Qed.

Lemma lookupStat_app (k : list N) (s1 s2 : list (list N * CategoryStat.t)) :
  lookupStat k (s1 ++ s2)
  = match lookupStat k s1 with
    | Some v => Some v
    | None => lookupStat k s2
    end.
Proof.
  induction s1 as [|[k0 v] r IH]; simpl; [reflexivity|].
  now case_bool_decide.
Qed.

Lemma lookupStat_None (k : list N) (stats : list (list N * CategoryStat.t)) :
  lookupStat k stats = None <-> k ∉ map fst stats.
Proof.
  induction stats as [|[k0 v] r IH]; simpl.
  - split; [intros _; apply not_elem_of_nil|reflexivity].
  - rewrite not_elem_of_cons. case_bool_decide as Hk.
    + split; [discriminate|]. intros [Hne _]. congruence.
    + rewrite IH. split; [intros H; split; [congruence|exact H]|tauto].
Qed.

Lemma lookupStat_elem (k : list N) (v : CategoryStat.t)
  (stats : list (list N * CategoryStat.t)) :
  NoDup (map fst stats) -> (k, v) ∈ stats -> lookupStat k stats = Some v.
Proof.
  induction stats as [|[k0 v0] r IH]; simpl; intros Hnd Hin.
  - now apply elem_of_nil in Hin.
  - apply NoDup_cons in Hnd as [Hk0 Hnd].
    apply elem_of_cons in Hin as [[= -> ->]|Hin].
    + now rewrite bool_decide_eq_true_2.
    + rewrite bool_decide_eq_false_2; [now apply IH|].
      intros ->. apply Hk0.
      apply list_elem_of_fmap. now exists (k, v).
Qed.

Lemma accumulateStat_qualifies (stats : list (list N * CategoryStat.t))
  (e : Entry) :
  qualifies e = false -> accumulateStat stats e = stats.
Proof.
  unfold qualifies, accumulateStat.
  destruct (isResting e), (bool_decide (immersion e = 0)); simpl;
    try reflexivity; discriminate.
Qed.

Lemma accumulateStat_lookup (stats : list (list N * CategoryStat.t))
  (e : Entry) (k : list N) :
  lookupStat k (accumulateStat stats e)
  = if qualifies e && bool_decide (category e = k) then
      let s := default (CategoryStat.mk 0 0) (lookupStat k stats) in
      Some (CategoryStat.mk
              (CategoryStat.totalImmersion s + immersion e * duration e)
              (CategoryStat.totalTime s + duration e))
    else lookupStat k stats.
Proof.
  destruct (qualifies e) eqn:Hq; simpl;
    [|now rewrite accumulateStat_qualifies].
  unfold qualifies in Hq. unfold accumulateStat.
  destruct (isResting e); [discriminate|].
  destruct (bool_decide (immersion e = 0)); [discriminate|]. simpl.
  rewrite lookupStat_updateStat.
  destruct (decide (category e = k)) as [<-|Hk].
  - rewrite !bool_decide_eq_true_2 by reflexivity.
    destruct (lookupStat (category e) stats) as [s|] eqn:Hs; simpl.
    + now rewrite Hs.
    + rewrite lookupStat_app, Hs. simpl.
      now rewrite bool_decide_eq_true_2.
  - rewrite (bool_decide_eq_false_2 (k = category e)) by congruence.
    rewrite (bool_decide_eq_false_2 (category e = k)) by exact Hk.
    destruct (lookupStat (category e) stats); [reflexivity|].
    rewrite lookupStat_app. simpl.
    rewrite (bool_decide_eq_false_2 (category e = k)) by exact Hk.
    now destruct (lookupStat k stats).
Qed.

Lemma accumulateStat_NoDup (stats : list (list N * CategoryStat.t))
  (e : Entry) :
  NoDup (map fst stats) -> NoDup (map fst (accumulateStat stats e)).
Proof.
  intros Hnd. unfold accumulateStat.
  destruct (_ || _); [exact Hnd|].
  rewrite updateStat_keys.
  destruct (lookupStat (category e) stats) eqn:Hs; [exact Hnd|].
  rewrite map_app. apply NoDup_app. split; [exact Hnd|]. split.
  - intros x Hx [->|[]%elem_of_nil]%elem_of_cons.
    now apply (proj1 (lookupStat_None _ _) Hs).
  - apply NoDup_singleton.
Qed.

Lemma fold_accumulateStat_NoDup (es : list Entry)
  (stats : list (list N * CategoryStat.t)) :
  NoDup (map fst stats) ->
  NoDup (map fst (fold_left accumulateStat es stats)).
Proof.
  revert stats. induction es as [|e es IH]; intros stats Hnd; [exact Hnd|].
  simpl. now apply IH, accumulateStat_NoDup.
Qed.

Lemma qualifyingIn_cons (k : list N) (e : Entry) (es : list Entry) :
  qualifyingIn k (e :: es)
  = if qualifies e && bool_decide (category e = k)
    then e :: qualifyingIn k es else qualifyingIn k es.
Proof.
  unfold qualifyingIn. rewrite filter_cons.
  destruct (decide (qualifies e = true /\ category e = k)) as [[Hq Hk]|Hn].
  - rewrite Hq, bool_decide_eq_true_2 by exact Hk. reflexivity.
  - destruct (qualifies e) eqn:Hq; simpl; [|reflexivity].
    rewrite bool_decide_eq_false_2; [reflexivity|]. tauto.
Qed.

Lemma fold_accumulateStat_lookup (es : list Entry)
  (stats : list (list N * CategoryStat.t)) (k : list N) :
  lookupStat k (fold_left accumulateStat es stats)
  = match qualifyingIn k es with
    | [] => lookupStat k stats
    | q =>
        let s := default (CategoryStat.mk 0 0) (lookupStat k stats) in
        Some (CategoryStat.mk
                (CategoryStat.totalImmersion s + weightedImmersion q)
                (CategoryStat.totalTime s + sumZ (map duration q)))
    end.
Proof.
  revert stats. induction es as [|e es IH]; intros stats; [reflexivity|].
  cbn [fold_left]. rewrite IH, accumulateStat_lookup, qualifyingIn_cons.
  destruct (qualifies e && bool_decide (category e = k)).
  - cbv zeta. unfold weightedImmersion.
    destruct (qualifyingIn k es) as [|x q]; cbn [default map sumZ foldr
      CategoryStat.totalImmersion CategoryStat.totalTime].
    + do 2 f_equal; unfold Datatypes.id; lia.
    + cbn [from_option Datatypes.id CategoryStat.totalImmersion
        CategoryStat.totalTime].
      do 2 f_equal; unfold Datatypes.id; lia.
  - reflexivity.
Qed.

Lemma analysisOf_category (kv : list N * CategoryStat.t) :
  ImmersionAnalysis.category (analysisOf kv) = fst kv.
Proof. now destruct kv. Qed.

Lemma qualifyingIn_nonempty (es : list Entry) (c : list N) :
  qualifyingIn c es <> []
  <-> exists e, e ∈ es /\ qualifies e = true /\ category e = c.
Proof.
  unfold qualifyingIn. split.
  - intros Hne. destruct (filter _ es) as [|e q] eqn:Hf; [contradiction|].
    assert (He : e ∈ filter (fun e => qualifies e = true /\ category e = c)
                       es) by (rewrite Hf; left).
    apply list_elem_of_filter in He as [[? ?] ?]. eauto.
  - intros (e & He & Hqe & Hc) Hnil.
    assert (Hin : e ∈ filter (fun e => qualifies e = true /\ category e = c)
                        es) by (apply list_elem_of_filter; auto).
    rewrite Hnil in Hin. now apply elem_of_nil in Hin.
Qed.

Lemma analysis_keys (es : list Entry) :
  Permutation
    (map ImmersionAnalysis.category (analyzeImmersionByCategory es))
    (map fst (fold_left accumulateStat es [])).
Proof.
  unfold analyzeImmersionByCategory. cbv zeta.
  rewrite <- sort_perm, map_map.
  erewrite map_ext; [reflexivity|]. apply analysisOf_category.
Qed.

Lemma analysis_category_iff (es : list Entry) (c : list N) :
  c ∈ map ImmersionAnalysis.category (analyzeImmersionByCategory es)
  <-> exists e, e ∈ es /\ qualifies e = true /\ category e = c.
Proof.
  rewrite analysis_keys, <- qualifyingIn_nonempty.
  pose proof (fold_accumulateStat_lookup es [] c) as Hl.
  pose proof (lookupStat_None c (fold_left accumulateStat es [])) as Hn.
  destruct (qualifyingIn c es) as [|x q].
  - simpl in Hl. split; [|congruence].
    intros Hin. now apply (proj1 Hn Hl) in Hin.
  - split; [discriminate|]. intros _.
    destruct (decide (c ∈ map fst (fold_left accumulateStat es [])))
      as [Hin|Hout]; [exact Hin|].
    apply Hn in Hout. rewrite Hout in Hl. discriminate.
Qed.

(** X11. The records of [analyzeImmersionByCategory], whatever their
    order, when no category is a name inherited from [Object.prototype]
    (for such a name the source makes no record): there is one record for
    a category exactly when an entry of that category counts (it is not
    resting and its immersion is not 0), and never two for the same
    category; the total time of a record is the sum of the durations of
    the entries that count for its category, and its average is the
    weighted sum of their immersions divided by that total, as a binary64
    number written with one decimal. *)
Theorem immersion_analysis_records (es : list Entry) :
  Forall plainCategory es ->
  NoDup (map ImmersionAnalysis.category (analyzeImmersionByCategory es))
  /\ (forall c,
        c ∈ map ImmersionAnalysis.category (analyzeImmersionByCategory es)
        <-> exists e, e ∈ es /\ qualifies e = true /\ category e = c)
  /\ (forall r, r ∈ analyzeImmersionByCategory es ->
        let q := qualifyingIn (ImmersionAnalysis.category r) es in
        q <> []
        /\ ImmersionAnalysis.totalTime r = sumZ (map duration q)
        /\ ImmersionAnalysis.averageImmersion r
           = toFixed1 (Z2F (weightedImmersion q)
                       / Z2F (sumZ (map duration q)))%float).
Proof.
  intros _.
  pose proof (fold_accumulateStat_NoDup es [] (NoDup_nil_2)) as Hnd.
  split; [now rewrite analysis_keys|].
  split; [apply analysis_category_iff|].
  intros r. unfold analyzeImmersionByCategory. cbv zeta.
  rewrite <- sort_perm.
  intros ([k v] & -> & Hkv)%list_elem_of_fmap.
  pose proof (lookupStat_elem k v _ Hnd Hkv) as Hv.
  rewrite fold_accumulateStat_lookup in Hv. simpl.
  destruct (qualifyingIn k es) as [|x q]; [discriminate|].
  injection Hv as <-. cbn [default CategoryStat.totalImmersion
    CategoryStat.totalTime]. rewrite !Z.add_0_l.
  split; [discriminate|]. split; reflexivity.
Qed.

Lemma immersion_analysis_records_witness :
  NoDup (map ImmersionAnalysis.category (analyzeImmersionByCategory SCORE_DAY)).
Proof.
  apply (proj1 (immersion_analysis_records SCORE_DAY
                  ltac:(repeat constructor))).
Defined.

(** ** Durations there and back, and of what the time pattern admits *)

Lemma hhmm_inj (h1 m1 h2 m2 : Z) :
  0 <= h1 < 100 -> 0 <= m1 < 100 -> 0 <= h2 < 100 -> 0 <= m2 < 100 ->
  hhmm h1 m1 = hhmm h2 m2 -> h1 = h2 /\ m1 = m2.
Proof.
  intros H1 H2 H3 H4 Heq.
  pose proof (time_components h1 m1 H1 H2) as Ha.
  rewrite Heq, time_components in Ha by assumption.
  injection Ha as -> ->. auto.
Qed.

(** X12. For two valid times that differ, the duration from the first to
    the second and the duration from the second to the first are both
    positive and add up to the 1440 minutes of a day; for equal times both
    are 0. *)
Theorem calculateDuration_complement (h1 m1 h2 m2 : Z) :
  0 <= h1 < 24 -> 0 <= m1 < 60 -> 0 <= h2 < 24 -> 0 <= m2 < 60 ->
  exists d d',
    calculateDuration (hhmm h1 m1) (hhmm h2 m2) = Some d
    /\ calculateDuration (hhmm h2 m2) (hhmm h1 m1) = Some d'
    /\ (hhmm h1 m1 = hhmm h2 m2 -> d = 0 /\ d' = 0)
    /\ (hhmm h1 m1 <> hhmm h2 m2 -> 0 < d /\ 0 < d' /\ d + d' = 1440).
Proof.
  intros H1 H2 H3 H4.
  rewrite !calculateDuration_hhmm by lia.
  do 2 eexists. split; [reflexivity|]. split; [reflexivity|].
  unfold minutesOf. cbv zeta. split.
  - intros Heq. apply hhmm_inj in Heq as [-> ->]; try lia.
    rewrite Z.sub_diag. simpl. auto.
  - intros Hne.
    assert (Hd : h2 * 60 + m2 <> h1 * 60 + m1).
    { intros Heq. apply Hne. f_equal; lia. }
    destruct (Z.ltb_spec (h2 * 60 + m2 - (h1 * 60 + m1)) 0),
             (Z.ltb_spec (h1 * 60 + m1 - (h2 * 60 + m2)) 0); lia.
Qed.

Lemma calculateDuration_complement_witness :
  exists d d',
    calculateDuration (hhmm 23 30) (hhmm 1 15) = Some d
    /\ calculateDuration (hhmm 1 15) (hhmm 23 30) = Some d'
    /\ (hhmm 23 30 = hhmm 1 15 -> d = 0 /\ d' = 0)
    /\ (hhmm 23 30 <> hhmm 1 15 -> 0 < d /\ 0 < d' /\ d + d' = 1440).
Proof.
  apply (calculateDuration_complement 23 30 1 15); lia.
Defined.

(** X13. The time pattern takes any two digits for the hour and for the
    minute, and the parser computes with them as they are: the duration of
    a parsed entry lies between -4599 and 6039, and both bounds are
    reached, by [99:99 ~ 00:00] and by [00:00 ~ 99:99]. A parsed duration
    can be negative and can exceed a day. *)
Theorem parser_duration_range (rawText : list N) :
  Forall (fun e => -4599 <= duration e <= 6039)
    (entries (parseLogText rawText))
  /\ map duration (entries (parseLogText (js "99:99 ~ 00:00 x"))) = [-4599]
  /\ map duration (entries (parseLogText (js "00:00 ~ 99:99 x"))) = [6039].
Proof.
  split; [|split; vm_compute; reflexivity].
  pose proof (parser_times_format rawText) as Hfmt.
  pose proof (parser_durationConsistent rawText) as Hdur.
  rewrite Forall_forall in Hfmt, Hdur. apply Forall_forall. intros e He.
  destruct (Hfmt e He) as [Hs Hend]. specialize (Hdur e He).
  destruct (timeFormat_hhmm _ Hs) as (h1 & m1 & ? & ? & E1).
  destruct (timeFormat_hhmm _ Hend) as (h2 & m2 & ? & ? & E2).
  unfold durationConsistent in Hdur.
  rewrite E1, E2, calculateDuration_hhmm in Hdur by lia.
  injection Hdur as <-. unfold minutesOf. cbv zeta.
  destruct (Z.ltb_spec (h2 * 60 + m2 - (h1 * 60 + m1)) 0); lia.
Qed.

(** ** The data of the distribution chart *)

Lemma minutesAtLevel_nonneg (level : Z) (es : list Entry) :
  Forall (fun e => 0 <= duration e) es -> 0 <= minutesAtLevel level es.
Proof.
  induction 1 as [|e es He _ IH]; [unfold minutesAtLevel; simpl; lia|].
  rewrite minutesAtLevel_cons. case_bool_decide; lia.
Qed.

Lemma minutesAtLevel_zero (level : Z) (es : list Entry) :
  Forall (fun e => 0 <= duration e) es ->
  minutesAtLevel level es = 0
  <-> Forall (fun e => immersion e = level -> duration e = 0) es.
Proof.
  induction 1 as [|e es He Hes IH].
  - split; [constructor|reflexivity].
  - rewrite minutesAtLevel_cons, Forall_cons_iff, <- IH.
    pose proof (minutesAtLevel_nonneg level es Hes).
    case_bool_decide; split; try lia; tauto.
Qed.

Lemma distribution_lookup (es : list Entry) (level : Z) :
  1 <= level <= 5 ->
  calculateImmersionDistribution es !! level = Some (minutesAtLevel level es).
Proof.
  intros Hl. unfold calculateImmersionDistribution.
  rewrite fold_addToLevel_lookup by exact Hl.
  assert (H : level = 1 \/ level = 2 \/ level = 3 \/ level = 4 \/ level = 5)
    by lia.
  destruct H as [->|[->|[->|[->| ->]]]]; reflexivity.
Qed.

(** X14. The data array that [renderImmersionDistChart] draws from the
    result of [calculateImmersionDistribution] is, from level 5 down to
    level 1, the minutes of the entries at that level. When no duration is
    negative, the placeholder chart is drawn exactly when every entry with
    an immersion from 1 to 5 has duration 0. *)
Theorem distribution_chart_data (es : list Entry) :
  distributionData (calculateImmersionDistribution es)
  = map (fun level => minutesAtLevel level es) [5; 4; 3; 2; 1]
  /\ (Forall (fun e => 0 <= duration e) es ->
      (showsEmptyPie (calculateImmersionDistribution es) = true
       <-> Forall (fun e => 1 <= immersion e <= 5 -> duration e = 0) es)).
Proof.
  assert (Hdata : distributionData (calculateImmersionDistribution es)
                  = map (fun level => minutesAtLevel level es) [5; 4; 3; 2; 1]).
  { unfold distributionData. cbn [map].
    rewrite !distribution_lookup by lia. reflexivity. }
  split; [exact Hdata|]. intros Hnn.
  unfold showsEmptyPie. rewrite Hdata. cbn [map forallb].
  rewrite !andb_true_iff, !Z.eqb_eq.
  rewrite !(minutesAtLevel_zero _ es Hnn), !Forall_forall.
  split.
  - intros (H5 & H4 & H3 & H2 & H1 & _) e He Hl.
    assert (H : immersion e = 1 \/ immersion e = 2 \/ immersion e = 3
                \/ immersion e = 4 \/ immersion e = 5) by lia.
    destruct H as [H|[H|[H|[H|H]]]]; eauto.
  - intros H. repeat split; intros e He Hl; apply (H e He); lia.
Qed.

Lemma distribution_chart_data_witness :
  showsEmptyPie (calculateImmersionDistribution ZERO_LENGTH_DAY) = true
  <-> Forall (fun e => 1 <= immersion e <= 5 -> duration e = 0)
        ZERO_LENGTH_DAY.
Proof.
  apply (proj2 (distribution_chart_data ZERO_LENGTH_DAY)).
  repeat constructor; vm_compute; discriminate.
Defined.

(** ** The shape of what the parser returns *)

Lemma dropWhile_idemp {A} (f : A -> bool) (l : list A) :
  dropWhile f (dropWhile f l) = dropWhile f l.
Proof.
  induction l as [|x l IH]; [reflexivity|]. simpl.
  destruct (f x) eqn:Hx; [exact IH|]. simpl. now rewrite Hx.
Qed.

Lemma dropWhile_snoc {A} (f : A -> bool) (l : list A) (x : A) :
  f x = false -> dropWhile f (l ++ [x]) = dropWhile f l ++ [x].
Proof.
  intros Hx. induction l as [|y l IH]; simpl; [now rewrite Hx|].
  now destruct (f y).
Qed.

Lemma dropWhile_Forall {A} (P : A -> Prop) (f : A -> bool) (l : list A) :
  Forall P l -> Forall P (dropWhile f l).
Proof.
  induction 1 as [|x l Hx Hl IH]; simpl; [constructor|].
  destruct (f x); [exact IH|now constructor].
Qed.

Lemma trim_Forall (P : N -> Prop) (s : list N) :
  Forall P s -> Forall P (trim s).
Proof.
  intros H. unfold trim, trimEnd, trimStart.
  apply Forall_rev, dropWhile_Forall, Forall_rev, dropWhile_Forall, H.
Qed.

Lemma trim_idemp (s : list N) : trim (trim s) = trim s.
Proof.
  unfold trim, trimStart, trimEnd.
  destruct (dropWhile isWhiteSpace s) as [|x u] eqn:Hu; [reflexivity|].
  assert (Hx : isWhiteSpace x = false).
  { pose proof (dropWhile_idemp isWhiteSpace s) as Hi.
    rewrite Hu in Hi. simpl in Hi.
    destruct (isWhiteSpace x); [|reflexivity].
    exfalso. assert (Hlen : (length (dropWhile isWhiteSpace u)
                             <= length u)%nat).
    { clear. induction u as [|y u IH]; simpl; [lia|].
      destruct (isWhiteSpace y); simpl; lia. }
    rewrite Hi in Hlen. simpl in Hlen. lia. }
  cbn [rev]. rewrite dropWhile_snoc by exact Hx.
  rewrite rev_app_distr. cbn [rev app dropWhile]. rewrite Hx.
  cbn [rev]. rewrite rev_involutive, dropWhile_snoc by exact Hx.
  rewrite dropWhile_idemp, rev_app_distr. reflexivity.
Qed.

Lemma matchBars_None (s : list N) :
  matchBars s = None -> Forall (fun c => isBar c = false) s.
Proof.
  unfold matchBars. induction s as [|x s IH]; [constructor|].
  simpl. destruct (isBar x) eqn:Hx; simpl.
  - rewrite Hx. discriminate.
  - intros H. constructor; [exact Hx|now apply IH].
Qed.

Lemma matchBars_Some (s run : list N) :
  matchBars s = Some run -> run <> [].
Proof.
  unfold matchBars. destruct (takeWhile _ _); [discriminate|].
  now intros [= <-].
Qed.

Lemma parseTimeEntry_shape (line : list N) (timeMatch : TimeMatch)
  (index : Z) (e : Entry) :
  parseTimeEntry line timeMatch index = Some e ->
  trimmed (content e) /\ 0 <= immersion e
  /\ (immersion e = 0 -> Forall (fun c => isBar c = false) (content e)).
Proof.
  unfold parseTimeEntry, trimmed.
  destruct (matchBars _) as [bars|] eqn:Hb;
    destruct (calculateDuration _ _); try discriminate;
    intros [= <-]; simpl.
  - split; [apply trim_idemp|]. unfold calculateImmersionLevel.
    split; [lia|]. apply matchBars_Some in Hb.
    destruct bars; [contradiction|]. simpl. lia.
  - split; [apply trim_idemp|]. split; [lia|]. intros _.
    now apply trim_Forall, matchBars_None.
Qed.

Lemma parseLine_shape (line : list N) (index : Z) (acc : ParsedLog) :
  (itemCount (parseLine line index acc) <= itemCount acc + 1)%nat
  /\ (Forall trimmed (thoughts acc) ->
      Forall trimmed (thoughts (parseLine line index acc)))
  /\ (Forall trimmed (actions acc) ->
      Forall trimmed (actions (parseLine line index acc))).
Proof.
  unfold parseLine, itemCount.
  case_bool_decide; [repeat split; auto; lia|].
  destruct (matchThought _).
  { simpl. rewrite length_app. simpl. repeat split; auto; [lia|].
    intros H'. apply Forall_app. split; [exact H'|].
    repeat constructor. apply trim_idemp. }
  destruct (matchAction _).
  { simpl. rewrite length_app. simpl. repeat split; auto; [lia|].
    intros H'. apply Forall_app. split; [exact H'|].
    repeat constructor. apply trim_idemp. }
  destruct (matchTimeHeader _); [|repeat split; auto; lia].
  destruct (parseTimeEntry _ _ _); [|repeat split; auto; lia].
  simpl. rewrite length_app. simpl. repeat split; auto; lia.
Qed.

Lemma parseLines_shape (lines : list (list N)) (index : Z) (acc : ParsedLog) :
  (itemCount (parseLines lines index acc) <= itemCount acc + length lines)%nat
  /\ (Forall trimmed (thoughts acc) ->
      Forall trimmed (thoughts (parseLines lines index acc)))
  /\ (Forall trimmed (actions acc) ->
      Forall trimmed (actions (parseLines lines index acc))).
Proof.
  revert index acc.
  induction lines as [|line rest IH]; intros index acc; simpl.
  - repeat split; auto; lia.
  - destruct (IH (index + 1) (parseLine line index acc)) as (Hc & Ht & Ha).
    destruct (parseLine_shape line index acc) as (Hc' & Ht' & Ha').
    repeat split; auto; lia.
Qed.

(** X15. What [parseLogText] returns: a line gives at most one item, an
    entry, a thought or an action, so that the three arrays together hold
    no more items than the text has lines; the content of an entry, every
    thought and every action is trimmed; the immersion of an entry is not
    negative, and when it is 0 its content has no bar character. *)
Theorem parser_output_shape (rawText : list N) :
  (itemCount (parseLogText rawText) <= length (split 10%N rawText))%nat
  /\ Forall (fun e => trimmed (content e) /\ 0 <= immersion e
                      /\ (immersion e = 0 ->
                          Forall (fun c => isBar c = false) (content e)))
       (entries (parseLogText rawText))
  /\ Forall trimmed (thoughts (parseLogText rawText))
  /\ Forall trimmed (actions (parseLogText rawText)).
Proof.
  destruct (parseLines_shape (split 10%N rawText) 0 (mkParsedLog [] [] []))
    as (Hc & Ht & Ha).
  split; [exact Hc|]. split; [|split; [apply Ht|apply Ha]; constructor].
  apply Forall_forall. intros e He.
  destruct (parser_entry_source rawText e He) as (i & l & tm & _ & _ & Hp).
  now apply parseTimeEntry_shape in Hp.
Qed.

(** ** The board after a drop *)

(** X16. After a card is dropped on the column of [c], the board shows the
    entry in that column, at the place its position in the entries array
    gives it, and in no other column; every other card is where it was.
    The entry is the first one with the dragged id; neither [c] nor the
    category of another entry is an inherited name, so that the board is
    built. *)
Theorem kanban_drop_moves_card (es1 es2 : list Entry) (e : Entry)
  (c : list N) :
  id e ∉ map id es1 ->
  Forall plainCategory (es1 ++ es2) -> inherited c = false ->
  exists grouped,
    groupEntriesByCategory (handleKanbanDrop (id e) c (es1 ++ e :: es2))
    = Some grouped
    /\ kanbanColumns grouped
       = map (fun k =>
                (k, filter (fun x => category x = k) es1
                    ++ (if bool_decide (k = c) then [setCategory c e] else [])
                    ++ filter (fun x => category x = k) es2))
           CATEGORY_ORDER.
Proof.
  intros Hes1 Hp Hc. rewrite handleKanbanDrop_first by auto.
  apply Forall_app in Hp as [Hp1 Hp2].
  eexists. split.
  - apply groupInto_plain. apply Forall_app. split; [exact Hp1|].
    constructor; [exact Hc|exact Hp2].
  - unfold kanbanColumns. apply map_ext. intros k.
    rewrite grouped_default, filter_app, filter_cons.
    simpl. destruct (decide (c = k)) as [->|Hne].
    + now rewrite bool_decide_eq_true_2.
    + rewrite bool_decide_eq_false_2 by congruence. reflexivity.
Qed.

Lemma kanban_drop_moves_card_witness :
  let first :=
    mkEntry 1 (js "09:00") (js "10:00") (js "閱讀") 3 60 CATEGORIES.ROUTINE in
  let second :=
    mkEntry 2 (js "10:00") (js "11:30") (js "開會") 2 90 CATEGORIES.ROUTINE in
  exists grouped,
    groupEntriesByCategory
      (handleKanbanDrop (id second) CATEGORIES.SOCIAL
         ([first] ++ second :: []))
    = Some grouped
    /\ kanbanColumns grouped
       = map (fun k =>
                (k, filter (fun x => category x = k) [first]
                    ++ (if bool_decide (k = CATEGORIES.SOCIAL)
                        then [setCategory CATEGORIES.SOCIAL second] else [])
                    ++ filter (fun x => category x = k) []))
           CATEGORY_ORDER.
Proof.
  cbv zeta. apply kanban_drop_moves_card.
  - intros Hin. vm_compute in Hin. inversion Hin as [|? ? ? H']. inversion H'.
  - repeat constructor.
  - reflexivity.
Defined.

(** ** The fences of a response *)

Lemma stripFences_skip (k : nat) (s : list N) :
  stripFences k s = stripFences 0 (drop k s).
Proof.
  revert k. induction s as [|x r IH]; intros [|k]; try reflexivity.
  simpl. apply IH.
Qed.

Lemma stripFences_head (x : N) (r : list N) :
  x <> 96%N -> stripFences 0 (x :: r) = x :: stripFences 0 r.
Proof.
  intros Hx. simpl.
  rewrite (bool_decide_eq_false_2 (96%N = x)) by congruence. reflexivity.
Qed.

Lemma stripFences_no_fence (x : N) (r : list N) :
  startsWith FENCE (x :: r) = false ->
  stripFences 0 (x :: r) = x :: stripFences 0 r.
Proof.
  intros H. cbn [stripFences]. rewrite H.
  replace (startsWith FENCE_JSON (x :: r)) with false; [reflexivity|].
  symmetry. revert H. unfold FENCE, FENCE_JSON. cbn [startsWith].
  destruct (bool_decide (96%N = x)); [|reflexivity]. cbn [andb].
  destruct r as [|y r]; [reflexivity|].
  destruct (bool_decide (96%N = y)); [|reflexivity]. cbn [andb].
  destruct r as [|z r]; [reflexivity|].
  destruct (bool_decide (96%N = z)); cbn [andb]; [discriminate|reflexivity].
Qed.

Lemma stripFences_two (r : list N) :
  startsWith [96; 96]%N r = false ->
  startsWith [96; 96]%N (stripFences 0 r) = false.
Proof.
  destruct r as [|y r]; [reflexivity|].
  destruct (decide (y = 96%N)) as [->|Hy].
  - destruct r as [|z r]; [reflexivity|].
    cbn [startsWith]. rewrite bool_decide_eq_true_2 by reflexivity.
    cbn [andb]. rewrite andb_true_r. intros Hz.
    apply bool_decide_eq_false in Hz.
    rewrite stripFences_no_fence.
    + rewrite stripFences_head by congruence.
      cbn [startsWith]. rewrite (bool_decide_eq_false_2 (96%N = z)) by exact Hz.
      now rewrite andb_false_r.
    + unfold FENCE. cbn [startsWith].
      rewrite (bool_decide_eq_false_2 (96%N = z)) by exact Hz.
      now rewrite andb_false_r.
  - intros _. rewrite stripFences_head by exact Hy.
    cbn [startsWith]. now rewrite bool_decide_eq_false_2 by congruence.
Qed.

Lemma stripFences_clean (n : nat) (s : list N) :
  (length s <= n)%nat -> indexOf FENCE (stripFences 0 s) = None.
Proof.
  revert s. induction n as [|n IH]; intros [|x r] Hn; try reflexivity;
    [simpl in Hn; lia|].
  simpl in Hn. cbn [stripFences].
  destruct (startsWith FENCE_JSON (x :: r)).
  { rewrite stripFences_skip. apply IH. rewrite length_drop. lia. }
  destruct (startsWith FENCE (x :: r)) eqn:Hf.
  { rewrite stripFences_skip. apply IH. rewrite length_drop. lia. }
  cbn [indexOf]. rewrite (IH r) by lia.
  replace (startsWith FENCE (x :: stripFences 0 r)) with false; [reflexivity|].
  symmetry. revert Hf. unfold FENCE. cbn [startsWith].
  destruct (bool_decide (96%N = x)); [|reflexivity]. cbn [andb].
  apply stripFences_two.
Qed.

Lemma stripFences_id (s : list N) :
  indexOf FENCE s = None -> stripFences 0 s = s.
Proof.
  induction s as [|x r IH]; [reflexivity|].
  cbn [indexOf]. destruct (startsWith FENCE (x :: r)) eqn:Hf; [discriminate|].
  intros Hr. rewrite stripFences_no_fence by exact Hf.
  f_equal. apply IH. now destruct (indexOf FENCE r).
Qed.

Lemma stripFences_plain (s t : list N) :
  96%N ∉ s -> stripFences 0 (s ++ t) = s ++ stripFences 0 t.
Proof.
  induction s as [|x s IH]; [reflexivity|].
  rewrite not_elem_of_cons. intros [Hx Hs].
  cbn [app]. rewrite stripFences_head by congruence. now rewrite IH.
Qed.

(** X17. The cleaning of the response, [replace(/```json|```/g, '')]:
    what it returns holds no fence; a text without a fence is returned
    as it is, so that cleaning twice is cleaning once; and a text without
    a backquote that is wrapped in a json fence and a closing fence is
    unwrapped. *)
Theorem stripFences_spec (s : list N) :
  contains FENCE (stripFences 0 s) = false
  /\ (contains FENCE s = false -> stripFences 0 s = s)
  /\ stripFences 0 (stripFences 0 s) = stripFences 0 s
  /\ (96%N ∉ s -> stripFences 0 (FENCE_JSON ++ s ++ FENCE) = s).
Proof.
  assert (Hclean : indexOf FENCE (stripFences 0 s) = None)
    by now apply (stripFences_clean (length s)).
  split; [unfold contains; now rewrite Hclean|].
  split; [|split].
  - unfold contains. intros H. apply stripFences_id.
    now destruct (indexOf FENCE s).
  - now apply stripFences_id.
  - intros Hs.
    change (stripFences 0 (FENCE_JSON ++ s ++ FENCE))
      with (stripFences 0 (s ++ FENCE)).
    rewrite stripFences_plain by exact Hs.
    change (stripFences 0 FENCE) with (@nil N). apply app_nil_r.
Qed.

(** ** The totals of the productivity score *)

Lemma active_and_resting (es : list Entry) :
  totalActiveMinutes es + minutesInCategory CATEGORIES.RELAX_BED es
  = sumZ (map duration es).
Proof.
  unfold totalActiveMinutes, activeEntries.
  induction es as [|e es IH]; [reflexivity|].
  rewrite minutesInCategory_cons, filter_cons.
  change (bool_decide (category e = CATEGORIES.RELAX_BED)) with (isResting e).
  destruct (isResting e); simpl in *; lia.
Qed.

Lemma productive_le_active (es : list Entry) :
  Forall (fun e => 0 <= duration e) es ->
  0 <= productiveHighImmersionMinutes es <= totalActiveMinutes es.
Proof.
  unfold productiveHighImmersionMinutes, totalActiveMinutes. intros Hes.
  assert (Hnn : Forall (fun e => 0 <= duration e) (activeEntries es)).
  { rewrite Forall_forall in *. intros e He. apply Hes.
    unfold activeEntries in He. now apply list_elem_of_filter in He. }
  clear Hes. induction Hnn as [|e l He _ IH]; [simpl; lia|].
  rewrite filter_cons. destruct (isProductive e); simpl in *; lia.
Qed.

Lemma zero_of_active (t : Z) :
  t <> 0 -> Z.abs t < 2 ^ 53 ->
  Math_round (Z2F 0 / Z2F t * Z2F 100)%float = Some 0.
Proof.
  intros Ht Hb. destruct (Z2F_finite t Ht Hb) as (s & m & e & Hx).
  assert (Hq : (Z2F 0 / Z2F t)%float = SF2Prim (S754_zero s)).
  { apply Prim2SF_inj. rewrite div_spec, Hx.
    rewrite Prim2SF_SF2Prim by reflexivity.
    change (Prim2SF (Z2F 0)) with (S754_zero false).
    now destruct s. }
  rewrite Hq. destruct s; vm_compute; reflexivity.
Qed.

(** X18. The two counters of [calculateProductivityScore] and the other
    totals: the active minutes and the minutes that
    [calculateCategoryStats] has for the resting category add up to the
    total time; when no duration is negative, the productive minutes are
    between 0 and the active minutes; and with no productive minute the
    score is 0. *)
Theorem productivity_totals (es : list Entry) :
  snd (productivityTotals es)
  + default 0 (calculateCategoryStats es !! CATEGORIES.RELAX_BED)
  = calculateTotalTime es
  /\ (Forall (fun e => 0 <= duration e) es ->
      0 <= fst (productivityTotals es) <= snd (productivityTotals es))
  /\ (fst (productivityTotals es) = 0 ->
      Z.abs (snd (productivityTotals es)) < 2 ^ 53 ->
      calculateProductivityScore es = Some 0).
Proof.
  unfold calculateProductivityScore.
  rewrite productivityTotals_sums. cbn [fst snd].
  split; [|split].
  - rewrite calculateTotalTime_sum, <- active_and_resting. f_equal.
    unfold calculateCategoryStats.
    rewrite fold_addToCategory_lookup, lookup_empty.
    case_bool_decide as Hin; [reflexivity|].
    now rewrite (minutesInCategory_absent _ _ Hin).
  - apply productive_le_active.
  - intros -> Hb.
    destruct (Z.eqb_spec (totalActiveMinutes es) 0) as [|Ht]; [reflexivity|].
    now apply zero_of_active.
Qed.

Lemma productivity_totals_witness :
  calculateProductivityScore
    [mkEntry 1 (js "09:00") (js "09:23") (js "x") 2 23 CATEGORIES.WORK;
     mkEntry 0 (js "00:00") (js "09:00") (js "z") 0 540 CATEGORIES.RELAX_BED]
  = Some 0.
Proof.
  apply (proj2 (proj2 (productivity_totals _))); vm_compute; reflexivity.
Defined.

(** ** The order of the immersion analysis *)














(** ** The points of the immersion chart *)

Lemma chartEntries_qualifies (es : list Entry) :
  Forall (fun e => 0 <= immersion e) es ->
  chartEntries es = filter (fun e => qualifies e = true) es.
Proof.
  unfold chartEntries.
  induction 1 as [|e es He _ IH]; [reflexivity|].
  rewrite !filter_cons, IH. apply decide_ext.
  unfold qualifies, isResting.
  rewrite andb_true_iff, !negb_true_iff, !bool_decide_eq_false.
  split; intros [? ?]; split; auto; lia.
Qed.

(** X20. [renderImmersionChart] and [analyzeImmersionByCategory] choose
    their entries by two tests, an immersion above 0 and an immersion other
    than 0. When no immersion is negative, as in what the parser returns,
    they choose the same entries: the chart draws the entries that count
    for the analysis, in the order of the input, and every value drawn is
    at least 1. When moreover no category is a name inherited from
    [Object.prototype], a category has a record in the analysis exactly
    when it has a point on the chart. *)
Theorem immersion_chart_points (es : list Entry) :
  Forall (fun e => 0 <= immersion e) es ->
  immersionChartData es
  = (map start (filter (fun e => qualifies e = true) es),
     map immersion (filter (fun e => qualifies e = true) es))
  /\ Forall (fun level => 1 <= level) (snd (immersionChartData es))
  /\ (Forall plainCategory es ->
      forall c,
        c ∈ map ImmersionAnalysis.category (analyzeImmersionByCategory es)
        <-> c ∈ map category (chartEntries es)).
Proof.
  intros Hnn. pose proof (chartEntries_qualifies es Hnn) as Hc.
  unfold immersionChartData. rewrite Hc. split; [reflexivity|]. split.
  - cbn [snd]. rewrite <- Hc. apply Forall_forall.
    intros level (e & -> & He)%list_elem_of_fmap.
    unfold chartEntries in He. apply list_elem_of_filter in He as [[_ ?] _].
    lia.
  - intros _ c. rewrite analysis_category_iff. split.
    + intros (e & He & Hq & <-). apply list_elem_of_fmap.
      exists e. split; [reflexivity|]. apply list_elem_of_filter. auto.
    + intros (e & -> & He)%list_elem_of_fmap.
      apply list_elem_of_filter in He as [Hq He]. eauto.
Qed.

Lemma immersion_chart_points_witness :
  immersionChartData SCORE_DAY
  = (map start (filter (fun e => qualifies e = true) SCORE_DAY),
     map immersion (filter (fun e => qualifies e = true) SCORE_DAY)).
Proof.
  apply (proj1 (immersion_chart_points SCORE_DAY
                  ltac:(repeat constructor; vm_compute; discriminate))).
Defined.
